(** * NP-DHMC sampler (infer.py): a shallow embedding and its properties

    The development follows [src/infer.py]:
    - [State] and [State.kinetic_energy] (lines 17-44),
    - [coord_integrator] (lines 103-150),
    - [integrator_step] (lines 153-177),
    - [np_dhmc] (lines 181-238).

    Tensors of floats are lists of extended numbers ([num]): exact
    rationals together with the three special values of IEEE arithmetic
    that the code tests for ([math.isfinite], [!= math.inf]).  Rounding
    is not modelled; the arithmetic keeps its results as reduced
    fractions.  The tensors held by a [State] live in a heap, since
    [coord_integrator] writes [state.p[i]] in place and slices are views
    of the storage they were taken from.  The global torch generator, the
    heap and a log of the requests made to the outside (draws, oracle calls,
    the final print) form the [world] threaded through every function;
    Python exceptions are the [Raise] results. *)

From Stdlib Require Import ZArith QArith Qabs Lqa Lia Bool List Permutation.
From stdpp Require Import base option list.

(** ** Extended numbers *)

Inductive num : Type :=
| NaN
| PInf
| NInf
| Fin (x : Q).

Module Num.

Definition zero : num := Fin 0.
Definition one : num := Fin 1.
Definition half : num := Fin (1 # 2).

(** [math.isfinite] *)
Definition isfinite (a : num) : bool :=
  match a with Fin _ => true | _ => false end.

Definition neg (a : num) : num :=
  match a with
  | NaN => NaN
  | PInf => NInf
  | NInf => PInf
  | Fin x => Fin (- x)
  end.

Definition add (a b : num) : num :=
  match a, b with
  | NaN, _ | _, NaN => NaN
  | PInf, NInf | NInf, PInf => NaN
  | PInf, _ | _, PInf => PInf
  | NInf, _ | _, NInf => NInf
  | Fin x, Fin y => Fin (Qred (x + y))
  end.

Definition sub (a b : num) : num := add a (neg b).

(** sign of a rational as a comparison with zero *)
Definition cmp0 (x : Q) : comparison := (Qnum x ?= 0)%Z.

(** an infinity of the sign given by [pos], scaled by the finite [x] *)
Definition scale_inf (pos : bool) (x : Q) : num :=
  match cmp0 x with
  | Eq => NaN
  | Gt => if pos then PInf else NInf
  | Lt => if pos then NInf else PInf
  end.

Definition mul (a b : num) : num :=
  match a, b with
  | NaN, _ | _, NaN => NaN
  | PInf, PInf | NInf, NInf => PInf
  | PInf, NInf | NInf, PInf => NInf
  | PInf, Fin y => scale_inf true y
  | NInf, Fin y => scale_inf false y
  | Fin x, PInf => scale_inf true x
  | Fin x, NInf => scale_inf false x
  | Fin x, Fin y => Fin (Qred (x * y))
  end.

(** division of a float by the literal [2] *)
Definition div2 (a : num) : num :=
  match a with
  | Fin x => Fin (Qred (x / 2))
  | other => other
  end.

(** [torch.abs] *)
Definition abs (a : num) : num :=
  match a with
  | NaN => NaN
  | PInf | NInf => PInf
  | Fin x => Fin (Qabs x)
  end.

(** [torch.sign]: computed by the backend as [(0 < a) - (a < 0)], which
    is [0] on a NaN. *)
Definition sign (a : num) : num :=
  match a with
  | NaN => Fin 0
  | PInf => Fin 1
  | NInf => Fin (-1)
  | Fin x => match cmp0 x with
             | Eq => Fin 0
             | Gt => Fin 1
             | Lt => Fin (-1)
             end
  end.

(** [a <= b]; every comparison with a NaN is false *)
Definition le (a b : num) : bool :=
  match a, b with
  | NaN, _ | _, NaN => false
  | NInf, _ => true
  | _, PInf => true
  | PInf, _ => false
  | _, NInf => false
  | Fin x, Fin y => Qle_bool x y
  end.

(** [a < b] *)
Definition lt (a b : num) : bool :=
  match a, b with
  | NaN, _ | _, NaN => false
  | PInf, _ => false
  | _, NInf => false
  | NInf, _ => true
  | _, PInf => true
  | Fin x, Fin y => negb (Qle_bool y x)
  end.

(** [a != math.inf] *)
Definition ne_inf (a : num) : bool :=
  match a with PInf => false | _ => true end.

(** a [bool] promoted to a float, as torch does when a float tensor is
    multiplied by a boolean mask *)
Definition of_bool (b : bool) : num := if b then one else zero.

(** multiplication of a float entry by a mask entry *)
Definition mask (a : num) (b : bool) : num := mul a (of_bool b).

(** [torch.sum] and [dot] *)
Definition sum (l : list num) : num := foldr add zero l.
Definition dot (a b : list num) : num := sum (zip_with mul a b).

(** Two numbers denote the same value: rationals are compared by their
    value, not by their representation as a fraction. *)
Definition same (a b : num) : Prop :=
  match a, b with
  | NaN, NaN | PInf, PInf | NInf, NInf => True
  | Fin x, Fin y => (x == y)%Q
  | _, _ => False
  end.

Definition sameb (a b : num) : bool :=
  match a, b with
  | NaN, NaN | PInf, PInf | NInf, NInf => true
  | Fin x, Fin y => Qeq_bool x y
  | _, _ => false
  end.

End Num.

(** ** Exceptions and results *)

Inductive exn : Type :=
| IndexError          (* an index outside a tensor *)
| ShapeError          (* operands that cannot be broadcast together *)
| AssertionError      (* a failed [assert] *)
| ZeroDivisionError.  (* [accept_count / count] with [count = 0] *)

Inductive res (A : Type) : Type :=
| Ok (a : A)
| Raise (e : exn).

Arguments Ok {A} a.
Arguments Raise {A} e.

(** ** One-dimensional tensors as lists *)

Module Tensor.

(** Elementwise binary operation with torch's broadcasting rule for
    one-dimensional operands: equal lengths, or one operand of length 1. *)
Definition bcast2 {A B C : Type} (f : A -> B -> C)
    (a : list A) (b : list B) : res (list C) :=
  if Nat.eqb (length a) (length b) then Ok (zip_with f a b)
  else match a, b with
       | [x], _ => Ok (map (f x) b)
       | _, [y] => Ok (map (fun x => f x y) a)
       | _, _ => Raise ShapeError
       end.

(** [t[i]] on a list: [IndexError] outside the range *)
Definition index {A : Type} (l : list A) (i : nat) : res A :=
  match l !! i with
  | Some x => Ok x
  | None => Raise IndexError
  end.

(** [t[idx]] with a tensor of indices *)
Fixpoint index_select {A : Type} (l : list A) (idx : list nat) : res (list A) :=
  match idx with
  | [] => Ok []
  | k :: idx' =>
      match index l k with
      | Raise e => Raise e
      | Ok x => match index_select l idx' with
                | Raise e => Raise e
                | Ok xs => Ok (x :: xs)
                end
      end
  end.

(** [t[a:b]] for [0 <= a], [0 <= b] *)
Definition slice {A : Type} (a b : nat) (l : list A) : list A :=
  take (b - a) (drop a l).

(** [torch.flatten(torch.nonzero(m))]: the positions of the true entries,
    in increasing order, counted from [base] *)
Fixpoint nonzero_from (base : nat) (m : list bool) : list nat :=
  match m with
  | [] => []
  | b :: m' => if b then base :: nonzero_from (S base) m'
               else nonzero_from (S base) m'
  end.

Definition nonzero (m : list bool) : list nat := nonzero_from 0 m.

(** scalar times tensor *)
Definition scale (c : num) (l : list num) : list num := map (Num.mul c) l.

(** float tensor times boolean mask, float tensor plus/minus float tensor *)
Definition mul_mask : list num -> list bool -> res (list num) := bcast2 Num.mask.
Definition add : list num -> list num -> res (list num) := bcast2 Num.add.
Definition sub : list num -> list num -> res (list num) := bcast2 Num.sub.

(** [l[start:]] with Python's treatment of a negative start *)
Definition py_slice_from {A : Type} (start : Z) (l : list A) : list A :=
  let n := Z.of_nat (length l) in
  let s := if (start <? 0)%Z then Z.max (start + n) 0 else Z.min start n in
  drop (Z.to_nat s) l.

End Tensor.

(** ** The numeric backend and the outside world *)

(** What the code takes from torch besides tensor arithmetic: the state of
    the global generator with the draws made from it, and [torch.exp] on
    finite arguments. *)
Class Backend : Type := {
  gen : Type;
  rand : gen -> num * gen;                  (* torch.rand(()) *)
  normal1 : gen -> num * gen;               (* one Normal(0, 1) value *)
  laplace1 : gen -> num * gen;              (* one Laplace(0, 1) value *)
  randperm : nat -> gen -> list nat * gen;  (* torch.randperm(n) *)
  exp_fin : Q -> num                        (* torch.exp on a finite value *)
}.

(** [torch.exp]: the backend's values on finite arguments, the IEEE values
    on the others *)
Definition fexp `{Backend} (a : num) : num :=
  match a with
  | NaN => NaN
  | PInf => PInf
  | NInf => Num.zero
  | Fin x => exp_fin x
  end.

(** A request made to the outside, in the order in which it was made *)
Inductive event : Type :=
| EvRand
| EvNormal (n : nat)
| EvLaplace (n : nat)
| EvRandperm (n : nat)
| EvRunProg (q : list num)
| EvPrint (accept_count count : nat).

(** A float tensor of a [State]: a view of the first [tlen] cells of the
    storage at [sto]. *)
Record tref : Type := TRef { sto : nat; tlen : nat }.

Record world `{Backend} : Type := World {
  w_gen : gen;
  w_heap : list (list num);
  w_log : list event
}.

(** The result bundle [ProbRun] of one run of the program *)
Record ProbRun (T : Type) : Type := MkProbRun {
  log_weight : num;
  gradU : list num;
  samples : list num;
  is_cont : list bool;
  len : nat;
  value : T
}.

Arguments MkProbRun {T}.
Arguments log_weight {T}.
Arguments gradU {T}.
Arguments samples {T}.
Arguments is_cont {T}.
Arguments len {T}.
Arguments value {T}.

(** The oracle [run_prog]: it may draw from the global generator *)
Definition oracle `{Backend} (T : Type) : Type :=
  list num -> gen -> ProbRun T * gen.

(** ** The monad of the sampler: state passing with exceptions *)

Definition M `{Backend} (A : Type) : Type := world -> res (A * world).

Definition ret `{Backend} {A : Type} (a : A) : M A := fun w => Ok (a, w).

Definition bind `{Backend} {A B : Type} (m : M A) (f : A -> M B) : M B :=
  fun w => match m w with
           | Ok (a, w') => f a w'
           | Raise e => Raise e
           end.

Definition raise `{Backend} {A : Type} (e : exn) : M A := fun _ => Raise e.

Definition lift `{Backend} {A : Type} (r : res A) : M A :=
  fun w => match r with
           | Ok a => Ok (a, w)
           | Raise e => Raise e
           end.

Notation "'let*' x ':=' m 'in' k" := (bind m (fun x => k))
  (at level 10, x name, m at level 100, k at level 200).
Notation "'let*' ' pat ':=' m 'in' k" :=
  (bind m (fun x => match x with pat => k end))
  (at level 10, pat pattern, m at level 100, k at level 200).

(** [assert c] *)
Definition assert `{Backend} (c : bool) : M unit :=
  if c then ret tt else raise AssertionError.

(** *** The heap of float tensors *)

Definition storage (h : list (list num)) (l : nat) : list num :=
  default [] (h !! l).

(** the entries of a tensor *)
Definition contents (h : list (list num)) (t : tref) : list num :=
  take (tlen t) (storage h (sto t)).

Definition read `{Backend} (t : tref) : M (list num) :=
  fun w => Ok (contents (w_heap w) t, w).

(** [len(t)] *)
Definition tensor_len `{Backend} (t : tref) : M nat :=
  fun w => Ok (length (contents (w_heap w) t), w).

(** a new tensor with the given entries: the result of an arithmetic
    expression, of [clone()] or of [torch.cat] *)
Definition alloc `{Backend} (v : list num) : M tref :=
  fun w => Ok (TRef (length (w_heap w)) (length v),
               World _ (w_gen w) (w_heap w ++ [v]) (w_log w)).

(** [t[:n]]: a view of the same storage *)
Definition view (t : tref) (n : nat) : tref :=
  TRef (sto t) (Nat.min n (tlen t)).

(** [t[i]] *)
Definition getitem `{Backend} (t : tref) (i : nat) : M num :=
  let* v := read t in lift (Tensor.index v i).

(** the heap after cell [i] of the storage of [t] has been overwritten *)
Definition write (h : list (list num)) (t : tref) (i : nat) (x : num)
    : list (list num) :=
  alter (fun s => <[i := x]> s) (sto t) h.

(** [t[i] = x]: a write into the storage of [t] *)
Definition setitem `{Backend} (t : tref) (i : nat) (x : num) : M unit :=
  fun w =>
    if Nat.ltb i (length (contents (w_heap w) t)) then
      Ok (tt, World _ (w_gen w) (write (w_heap w) t i x) (w_log w))
    else Raise IndexError.

(** *** Draws and oracle calls *)

Definition log_event `{Backend} (e : event) (w : world) : list event :=
  w_log w ++ [e].

(** [torch.rand(())] *)
Definition draw_rand `{Backend} : M num :=
  fun w => let (x, g) := rand (w_gen w) in
           Ok (x, World _ g (w_heap w) (log_event EvRand w)).

(** [n] values taken one after the other from the generator *)
Fixpoint draw_n `{Backend} (d : gen -> num * gen) (n : nat) (g : gen)
    : list num * gen :=
  match n with
  | O => ([], g)
  | S n' => let (x, g1) := d g in
            let (xs, g2) := draw_n d n' g1 in
            (x :: xs, g2)
  end.

(** [torch.distributions.Normal(0, 1).sample([n])] *)
Definition sample_normal `{Backend} (n : nat) : M (list num) :=
  fun w => let (xs, g) := draw_n normal1 n (w_gen w) in
           Ok (xs, World _ g (w_heap w) (log_event (EvNormal n) w)).

(** [torch.distributions.Laplace(0, 1).sample([n])] *)
Definition sample_laplace `{Backend} (n : nat) : M (list num) :=
  fun w => let (xs, g) := draw_n laplace1 n (w_gen w) in
           Ok (xs, World _ g (w_heap w) (log_event (EvLaplace n) w)).

(** [torch.randperm(n)] *)
Definition draw_randperm `{Backend} (n : nat) : M (list nat) :=
  fun w => let (xs, g) := randperm n (w_gen w) in
           Ok (xs, World _ g (w_heap w) (log_event (EvRandperm n) w)).

(** [run_prog(q)] *)
Definition call `{Backend} {T : Type} (run_prog : oracle T) (qv : list num)
    : M (ProbRun T) :=
  fun w => let (r, g) := run_prog qv (w_gen w) in
           Ok (r, World _ g (w_heap w) (log_event (EvRunProg qv) w)).

(** [print(f"acceptance ratio: {accept_count / count * 100}%")] *)
Definition print_ratio `{Backend} (accept_count count : nat) : M unit :=
  fun w =>
    if Nat.eqb count 0 then Raise ZeroDivisionError
    else Ok (tt, World _ (w_gen w) (w_heap w)
                   (log_event (EvPrint accept_count count) w)).

(** ** [class State] *)

Module State.

Record t : Type := mk {
  q : tref;          (* position *)
  p : tref;          (* momentum *)
  is_cont : list bool
}.

(** The arithmetic of [kinetic_energy] on the entries of [p]. *)
Definition energy (pv : list num) (mask : list bool) : res num :=
  match Tensor.mul_mask pv mask with
  | Raise e => Raise e
  | Ok gaussian =>
      match Tensor.mul_mask pv (map negb mask) with
      | Raise e => Raise e
      | Ok laplace =>
          Ok (Num.add (Num.div2 (Num.dot gaussian gaussian))
                      (Num.sum (map Num.abs laplace)))
      end
  end.

(** [State.kinetic_energy] *)
Definition kinetic_energy `{Backend} (self : t) : M num :=
  let* pv := read (p self) in
  lift (energy pv (is_cont self)).

End State.

(** ** The sampler *)

(** The local variables of [np_dhmc] that live across the iterations of
    its loop. *)
Module Driver.

Record t (T : Type) : Type := mk {
  q : tref;
  is_cont : list bool;
  result : ProbRun T;
  final_samples : list T;
  accept_count : nat
}.

Arguments mk {T}.
Arguments q {T}.
Arguments is_cont {T}.
Arguments result {T}.
Arguments final_samples {T}.
Arguments accept_count {T}.

End Driver.

Section Sampler.

Context `{Backend} {T : Type}.

(** Line 134: [gauss * is_cont[N:N2] + laplace * ~is_cont[N:N2]] *)
Definition padding (gauss laplace : list num) (mask : list bool)
    : res (list num) :=
  match Tensor.mul_mask gauss mask with
  | Raise e => Raise e
  | Ok g =>
      match Tensor.mul_mask laplace (map negb mask) with
      | Raise e => Raise e
      | Ok l => Tensor.add g l
      end
  end.

(** Lines 127-138: the new run has more coordinates. *)
Definition extend (state state_0 : State.t) (result : ProbRun T) (N N2 : nat)
    : M (State.t * State.t) :=
  let* new_q := alloc (samples result) in
  let is_cont := is_cont result in
  let* gauss := sample_normal (N2 - N) in
  let* laplace := sample_laplace (N2 - N) in
  let* p_padding := lift (padding gauss laplace (Tensor.slice N N2 is_cont)) in
  let* p0 := read (State.p state_0) in
  let* new_p0 := alloc (p0 ++ p_padding) in
  let state_0 :=
    State.mk (State.q state_0) new_p0
             (State.is_cont state_0 ++ Tensor.slice N N2 is_cont) in
  let* pv := read (State.p state) in
  let* new_p := alloc (pv ++ p_padding) in
  ret (State.mk new_q new_p is_cont, state_0).

(** Lines 139-145: the new run has at most as many coordinates. *)
Definition truncate (state state_0 : State.t) (result : ProbRun T) (N2 : nat)
    : M (State.t * State.t) :=
  let* new_q := alloc (take N2 (samples result)) in
  let state :=
    State.mk new_q (view (State.p state) N2) (take N2 (is_cont result)) in
  let state_0 :=
    State.mk (State.q state_0) (view (State.p state_0) N2)
             (take N2 (State.is_cont state_0)) in
  ret (state, state_0).

(** Lines 146-149 *)
Definition check_lengths (state state_0 : State.t) : M unit :=
  let* lp := tensor_len (State.p state) in
  let* lp0 := tensor_len (State.p state_0) in
  let* _ := assert (Nat.eqb lp lp0) in
  let* lq := tensor_len (State.q state) in
  let* _ := assert (Nat.eqb lp lq) in
  let* _ := assert (Nat.eqb (length (State.is_cont state)) lp) in
  assert (Nat.eqb (length (State.is_cont state_0)) lp0).

(** Line 120: the test [not math.isfinite(new_U) or
    torch.abs(state.p[i]) <= delta_U]; [or] reads [state.p[i]] only when
    [new_U] is finite. *)
Definition reflects (state : State.t) (i : nat) (new_U delta_U : num) : M bool :=
  if negb (Num.isfinite new_U) then ret true
  else
    let* pi := getitem (State.p state) i in
    ret (Num.le (Num.abs pi) delta_U).

(** [coord_integrator] (lines 103-150).  The index [i] comes from
    [torch.nonzero] and is never negative.  The two [State] objects are
    returned with the fields they have when the call ends. *)
Definition coord_integrator (run_prog : oracle T) (i : nat) (eps : num)
    (state state_0 : State.t) (result : ProbRun T)
    : M (State.t * State.t * ProbRun T) :=
  let U := Num.neg (log_weight result) in
  let* qv := read (State.q state) in
  let* qi := lift (Tensor.index qv i) in
  let* pi := getitem (State.p state) i in
  let qv := <[i := Num.add qi (Num.mul eps (Num.sign pi))]> qv in
  let* new_result := call run_prog qv in
  let new_U := Num.neg (log_weight new_result) in
  let delta_U := Num.sub new_U U in
  let* c := reflects state i new_U delta_U in
  if c then
    let* pi := getitem (State.p state) i in
    let* _ := setitem (State.p state) i (Num.neg pi) in
    ret (state, state_0, result)
  else
    let* pi := getitem (State.p state) i in
    let* _ := setitem (State.p state) i
                      (Num.sub pi (Num.mul (Num.sign pi) delta_U)) in
    let N2 := len new_result in
    let N := len result in
    let result := new_result in
    let* '(state, state_0) :=
      (if Nat.ltb N N2
       then extend state state_0 result N N2
       else truncate state state_0 result N2) in
    let* _ := check_lengths state state_0 in
    ret (state, state_0, result).

(** Lines 169-172: the sweep over the permuted discontinuous indices. *)
Fixpoint sweep (run_prog : oracle T) (eps : num) (js : list nat)
    (state state_0 : State.t) (result : ProbRun T)
    : M (State.t * State.t * ProbRun T) :=
  match js with
  | [] => ret (state, state_0, result)
  | j :: js' =>
      let* n := tensor_len (State.q state) in
      if Nat.leb n j
      then sweep run_prog eps js' state state_0 result
      else
        let* '(state, state_0, result) :=
          coord_integrator run_prog j eps state state_0 result in
        sweep run_prog eps js' state state_0 result
  end.

(** [state.p - eps / 2 * result.gradU() * state.is_cont] (lines 162, 176) *)
Definition half_kick (eps : num) (state : State.t) (result : ProbRun T)
    : M State.t :=
  let* pv := read (State.p state) in
  let* k := lift (Tensor.mul_mask
                    (Tensor.scale (Num.div2 eps) (gradU result))
                    (State.is_cont state)) in
  let* new_p := lift (Tensor.sub pv k) in
  let* new_p := alloc new_p in
  ret (State.mk (State.q state) new_p (State.is_cont state)).

(** [state.q + eps / 2 * state.p * state.is_cont] (lines 163, 174) *)
Definition half_drift (eps : num) (state : State.t) : M State.t :=
  let* qv := read (State.q state) in
  let* pv := read (State.p state) in
  let* d := lift (Tensor.mul_mask (Tensor.scale (Num.div2 eps) pv)
                                  (State.is_cont state)) in
  let* new_q := lift (Tensor.add qv d) in
  let* new_q := alloc new_q in
  ret (State.mk new_q (State.p state) (State.is_cont state)).

(** [integrator_step] (lines 153-177) *)
Definition integrator_step (run_prog : oracle T) (eps : num)
    (state state_0 : State.t) : M (State.t * State.t * ProbRun T) :=
  let* qv := read (State.q state) in
  let* result := call run_prog qv in
  let* state := half_kick eps state result in
  let* state := half_drift eps state in
  let* qv := read (State.q state) in
  let* result := call run_prog qv in
  let disc_indices := Tensor.nonzero (map negb (State.is_cont state)) in
  let* perm := draw_randperm (length disc_indices) in
  let* disc_indices_permuted := lift (Tensor.index_select disc_indices perm) in
  let* '(state, state_0, result) :=
    sweep run_prog eps disc_indices_permuted state state_0 result in
  let* state := half_drift eps state in
  let* qv := read (State.q state) in
  let* result := call run_prog qv in
  let* state := half_kick eps state result in
  ret (state, state_0, result).

(** Lines 218-221: at most [n] leapfrog steps, none once the log-weight
    of the current result is not finite. *)
Fixpoint leapfrog (run_prog : oracle T) (n : nat) (dt : num)
    (state state_0 : State.t) (result : ProbRun T)
    : M (State.t * State.t * ProbRun T) :=
  match n with
  | O => ret (state, state_0, result)
  | S n' =>
      if negb (Num.isfinite (log_weight result))
      then ret (state, state_0, result)
      else
        let* '(state, state_0, result) :=
          integrator_step run_prog dt state state_0 in
        leapfrog run_prog n' dt state state_0 result
  end.

(** Lines 210-216: the jittered step size and the fresh momentum. *)
Definition propose (eps : num) (q : tref) (is_cont : list bool)
    : M (num * State.t * State.t) :=
  let* N := tensor_len q in
  let* u := draw_rand in
  let dt := Num.mul (Num.add u Num.half) eps in
  let* g := sample_normal N in
  let* gaussian := lift (Tensor.mul_mask g is_cont) in
  let* l := sample_laplace N in
  let* laplace := lift (Tensor.mul_mask l (map negb is_cont)) in
  let* pv := lift (Tensor.add gaussian laplace) in
  let* p := alloc pv in
  let state_0 := State.mk q p is_cont in
  let state := State.mk q p is_cont in
  ret (dt, state, state_0).

(** Lines 222-227: the Metropolis test; [and] draws only when the final
    potential is not [math.inf]. *)
Definition accepts (state state_0 : State.t) (prev_res result : ProbRun T)
    : M bool :=
  let* K_0 := State.kinetic_energy state_0 in
  let U_0 := Num.neg (log_weight prev_res) in
  let* K := State.kinetic_energy state in
  let U := Num.neg (log_weight result) in
  let accept_prob := fexp (Num.sub (Num.sub (Num.add U_0 K_0) U) K) in
  if Num.ne_inf U then
    let* u := draw_rand in
    ret (Num.lt u accept_prob)
  else ret false.

(** Lines 210-234: the body of the loop of [np_dhmc]. *)
Definition np_dhmc_iter (run_prog : oracle T) (leapfrog_steps : Z) (eps : num)
    (d : Driver.t T) : M (Driver.t T) :=
  let* '(dt, state, state_0) := propose eps (Driver.q d) (Driver.is_cont d) in
  let prev_res := Driver.result d in
  let* '(state, state_0, result) :=
    leapfrog run_prog (Z.to_nat leapfrog_steps) dt state state_0
             (Driver.result d) in
  let* a := accepts state state_0 prev_res result in
  if a then
    ret (Driver.mk (State.q state) (State.is_cont state) result
                    (Driver.final_samples d ++ [value result])
                    (S (Driver.accept_count d)))
  else
    ret (Driver.mk (Driver.q d) (Driver.is_cont d) prev_res
                    (Driver.final_samples d ++ [value prev_res])
                    (Driver.accept_count d)).

(** Line 209: [for _ in range(count)] *)
Fixpoint np_dhmc_loop (run_prog : oracle T) (n : nat) (leapfrog_steps : Z)
    (eps : num) (d : Driver.t T) : M (Driver.t T) :=
  match n with
  | O => ret d
  | S n' =>
      let* d := np_dhmc_iter run_prog leapfrog_steps eps d in
      np_dhmc_loop run_prog n' leapfrog_steps eps d
  end.

(** Lines 200-208: everything before the loop. *)
Definition np_dhmc_init (run_prog : oracle T) : M (Driver.t T) :=
  let* result := call run_prog [] in
  let* q := alloc (samples result) in
  ret (Driver.mk q (is_cont result) result [] O).

(** [np_dhmc] (lines 181-238) *)
Definition np_dhmc (run_prog : oracle T) (count leapfrog_steps : Z)
    (eps : num) (burnin : option Z) : M (list T) :=
  let burnin := match burnin with
                | None => (count / 10)%Z
                | Some b => b
                end in
  let* d := np_dhmc_init run_prog in
  let count := (count + burnin)%Z in
  let* d := np_dhmc_loop run_prog (Z.to_nat count) leapfrog_steps eps d in
  let count := length (Driver.final_samples d) in
  let final_samples := Tensor.py_slice_from burnin (Driver.final_samples d) in
  let* _ := print_ratio (Driver.accept_count d) count in
  ret final_samples.

End Sampler.

(** ** A concrete backend and concrete oracles

    They are used to run the sampler on explicit inputs. *)

Module Demo.

(** A rational stand-in for the exponential on finite arguments: positive,
    increasing, equal to 1 at 0. *)
Definition exp_approx (x : Q) : num :=
  if Qle_bool 0 x then Fin (1 + x + x * x / 2)
  else Fin (1 / (1 - x + x * x / 2)).

(** The generator is a tape of the values it will return; past its end it
    returns zeros.  [randperm] returns the reversed identity. *)
Definition next (g : list num) : num * list num :=
  match g with
  | [] => (Num.zero, [])
  | x :: g' => (x, g')
  end.

#[global] Instance tape : Backend := {|
  gen := list num;
  rand := next;
  normal1 := next;
  laplace1 := next;
  randperm := fun n g => (rev (seq 0 n), g);
  exp_fin := exp_approx
|}.

Definition start (g : list num) : world := World tape g [] [].

(** A world whose heap holds the given tensors. *)
Definition world_of (g : list num) (h : list (list num)) : world :=
  World tape g h [].

(** One continuous coordinate with a standard Gaussian density:
    [log_weight = - q0^2 / 2], [gradU = q0]. *)
Definition gaussian_1d : oracle Q :=
  fun qv g =>
    let x := match qv with Fin x :: _ => x | _ => 0%Q end in
    (MkProbRun (Fin (- (x * x) / 2)) [Fin x] [Fin x] [true] 1 x, g).

(** One discontinuous coordinate with a step of height [h] at 0: the
    potential is 0 for [q0 <= 0] and [h] for [0 < q0]. *)
Definition step_1d (h : Q) : oracle Q :=
  fun qv g =>
    let x := match qv with Fin x :: _ => x | _ => 0%Q end in
    (MkProbRun (if Qle_bool x 0 then Fin 0 else Fin (- h))
               [Fin 0] [Fin x] [false] 1 x, g).

(** A program that reads a second, continuous coordinate when its first,
    discontinuous coordinate is positive. *)
Definition branching : oracle nat :=
  fun qv g =>
    match qv with
    | Fin x :: rest =>
        if Qle_bool x 0 then
          (MkProbRun (Fin 0) [Fin 0] [Fin x] [false] 1 1%nat, g)
        else
          let y := match rest with y :: _ => y | [] => Fin (1 # 4) end in
          (MkProbRun (Fin 0) [Fin 0; Fin 0] [Fin x; y] [false; true] 2 2%nat, g)
    | _ => (MkProbRun (Fin 0) [Fin 0] [Fin (-1 # 2)] [false] 1 1%nat, g)
    end.


End Demo.

(** ** Definitions used to state the properties *)




(** The lengths that the assertions of [coord_integrator] compare
    (lines 146-149). *)
Definition lengths_agree (h : list (list num)) (state state_0 : State.t)
    : Prop :=
  length (contents h (State.p state)) = length (contents h (State.p state_0)) /\
  length (contents h (State.p state)) = length (contents h (State.q state)) /\
  length (State.is_cont state) = length (contents h (State.p state)) /\
  length (State.is_cont state_0) = length (contents h (State.p state_0)).

(** the handle points into the heap *)
Definition valid (h : list (list num)) (t : tref) : Prop := sto t < length h.

(** The test of line 120 on the values it reads. *)
Definition reflect_test (new_U delta_U pi : num) : bool :=
  negb (Num.isfinite new_U) || Num.le (Num.abs pi) delta_U.

(** The position at which [coord_integrator] runs the program
    (lines 115-116). *)
Definition shifted (qv : list num) (i : nat) (eps qi pi : num) : list num :=
  <[i := Num.add qi (Num.mul eps (Num.sign pi))]> qv.

(** What a call of [coord_integrator] reads and gets from the program
    before it decides (lines 114-119): the momentum [state.p[i]], the
    position it queries, the new result bundle and the generator after
    the run; nothing when [i] is outside [state.q] or [state.p]. *)
Definition probe `{Backend} {T : Type} (run_prog : oracle T) (i : nat)
    (eps : num) (state : State.t) (w : world)
    : option (num * list num * ProbRun T * gen) :=
  match contents (w_heap w) (State.q state) !! i,
        contents (w_heap w) (State.p state) !! i with
  | Some qi, Some pi =>
      let qv := shifted (contents (w_heap w) (State.q state)) i eps qi pi in
      let '(r, g) := run_prog qv (w_gen w) in
      Some (pi, qv, r, g)
  | _, _ => None
  end.

(** The change of potential energy across the move (lines 114, 118, 119). *)
Definition delta_U {T : Type} (result new_result : ProbRun T) : num :=
  Num.sub (Num.neg (log_weight new_result)) (Num.neg (log_weight result)).

(** The value written to [state.p[i]] by a refraction (line 123). *)
Definition refracted {T : Type} (result new_result : ProbRun T) (pi : num)
    : num :=
  Num.sub pi (Num.mul (Num.sign pi) (delta_U result new_result)).

(** Whether the call reflects (line 120). *)
Definition reflected {T : Type} (result new_result : ProbRun T) (pi : num)
    : bool :=
  reflect_test (Num.neg (log_weight new_result)) (delta_U result new_result) pi.

(** The momentum of the new coordinates in the words of the
    specification: the Gaussian value where the mask marks the coordinate
    continuous, the Laplace value otherwise. *)
Fixpoint fresh_momentum (gauss laplace : list num) (mask : list bool)
    : list num :=
  match gauss, laplace, mask with
  | g :: gauss', l :: laplace', b :: mask' =>
      (if b then g else l) :: fresh_momentum gauss' laplace' mask'
  | _, _, _ => []
  end.


(** A result bundle with [n] coordinates in every field. *)
Definition well_shaped {T : Type} (n : nat) (r : ProbRun T) : Prop :=
  len r = n /\ length (samples r) = n /\
  length (is_cont r) = n /\ length (gradU r) = n.

(** A program whose runs all have [n] coordinates. *)
Definition fixed_dimension `{Backend} {T : Type} (n : nat)
    (run_prog : oracle T) : Prop :=
  forall qv g, well_shaped n (fst (run_prog qv g)).

(** [torch.randperm(n)] returns indices below [n]. *)
Definition randperm_in_range `{Backend} : Prop :=
  forall n g, Forall (fun k => k < n) (fst (randperm n g)).

(** The two states of a trajectory in dimension [n]: every tensor has [n]
    entries and the momenta are tensors of the heap. *)
Definition shaped (n : nat) (h : list (list num)) (state state_0 : State.t)
    : Prop :=
  length (contents h (State.q state)) = n /\
  length (contents h (State.p state)) = n /\
  length (State.is_cont state) = n /\
  length (contents h (State.p state_0)) = n /\
  length (State.is_cont state_0) = n /\
  valid h (State.q state) /\
  valid h (State.p state) /\ valid h (State.p state_0).

(** The variables of the driver in dimension [n]. *)
Definition driver_shaped {T : Type} (n : nat) (h : list (list num))
    (d : Driver.t T) : Prop :=
  length (contents h (Driver.q d)) = n /\
  length (Driver.is_cont d) = n /\
  valid h (Driver.q d).

(** From [w] to [w'] the heap has only grown, its first [n] tensors hold
    what they held, and the log has only been appended to. *)
Definition grows `{Backend} (n : nat) (w w' : world) : Prop :=
  length (w_heap w) <= length (w_heap w') /\
  take n (w_heap w') = take n (w_heap w) /\
  exists evs, w_log w' = w_log w ++ evs.

(** The reference state [st0] is [state_0], or [state_0] cut to [n]
    entries (lines 144-145). *)
Definition kept (n : nat) (state_0 st0 : State.t) : Prop :=
  State.q st0 = State.q state_0 /\
  (State.p st0 = State.p state_0 \/ State.p st0 = view (State.p state_0) n) /\
  (State.is_cont st0 = State.is_cont state_0 \/
   State.is_cont st0 = take n (State.is_cont state_0)).




(** ** Facts about the extended numbers *)

Module NumFacts.




Lemma sameb_same a b : Num.sameb a b = true <-> Num.same a b.
Proof.
  destruct a, b; simpl; try tauto; try (split; [discriminate | tauto]).
  apply Qeq_bool_iff.
Qed.




Lemma add_NaN_l a : Num.add NaN a = NaN.
Proof. reflexivity. Qed.

Lemma add_NaN_r a : Num.add a NaN = NaN.
Proof. destruct a; reflexivity. Qed.

Lemma sum_NaN l : In NaN l -> Num.sum l = NaN.
Proof.
  induction l as [| x l IH]; simpl; [tauto |].
  intros [-> | Hin]; [reflexivity |].
  rewrite (IH Hin). apply add_NaN_r.
Qed.


Lemma mask_false_fin x : Num.same (Num.mask (Fin x) false) Num.zero.
Proof. simpl. rewrite Qred_correct. ring. Qed.

Lemma mask_NaN b : Num.mask NaN b = NaN.
Proof. reflexivity. Qed.








End NumFacts.

(** ** Kinetic energy *)

Module EnergyFacts.

Import NumFacts.

Lemma bcast2_same_length {A B C : Type} (f : A -> B -> C) a b :
  length a = length b -> Tensor.bcast2 f a b = Ok (zip_with f a b).
Proof.
  intros E. unfold Tensor.bcast2. rewrite E, Nat.eqb_refl. reflexivity.
Qed.

Lemma energy_same_length pv mask :
  length pv = length mask ->
  State.energy pv mask =
    Ok (Num.add
          (Num.div2 (Num.dot (zip_with Num.mask pv mask)
                             (zip_with Num.mask pv mask)))
          (Num.sum (map Num.abs (zip_with Num.mask pv (map negb mask))))).
Proof.
  intros E. unfold State.energy, Tensor.mul_mask.
  rewrite (bcast2_same_length _ _ _ E).
  rewrite bcast2_same_length by (rewrite length_map; exact E).
  reflexivity.
Qed.




Lemma squares_NaN g : In NaN g -> Num.dot g g = NaN.
Proof.
  intros Hin. unfold Num.dot. apply sum_NaN.
  induction g as [| x g IH]; simpl in *; [tauto |].
  destruct Hin as [-> | Hin]; [left; reflexivity | right; auto].
Qed.






End EnergyFacts.

(** ** Reasoning about the monad *)

Section MonadFacts.

Context `{Backend}.

Lemma bind_Ok {A B : Type} (m : M A) (f : A -> M B) w b w' :
  bind m f w = Ok (b, w') ->
  exists a w1, m w = Ok (a, w1) /\ f a w1 = Ok (b, w').
Proof.
  unfold bind. destruct (m w) as [[a w1] | e]; [| discriminate].
  intros Hf. exists a, w1. split; [reflexivity | exact Hf].
Qed.

Lemma bind_Ok_intro {A B : Type} (m : M A) (f : A -> M B) w a w1 :
  m w = Ok (a, w1) -> bind m f w = f a w1.
Proof. unfold bind. intros ->. reflexivity. Qed.

Lemma ret_Ok {A : Type} (a b : A) w w' :
  ret a w = Ok (b, w') -> b = a /\ w' = w.
Proof. unfold ret. intros [= -> ->]. split; reflexivity. Qed.

Lemma lift_Ok {A : Type} (r : res A) w a w' :
  lift r w = Ok (a, w') -> r = Ok a /\ w' = w.
Proof.
  unfold lift. destruct r; [| discriminate].
  intros [= -> ->]. split; reflexivity.
Qed.

Lemma assert_Ok c w u w' :
  assert c w = Ok (u, w') -> c = true /\ w' = w.
Proof.
  unfold assert. destruct c; [| discriminate].
  intros [_ ->]%ret_Ok. split; reflexivity.
Qed.

Lemma read_Ok t w v w' :
  read t w = Ok (v, w') -> v = contents (w_heap w) t /\ w' = w.
Proof. unfold read. intros [= <- <-]. split; reflexivity. Qed.

Lemma tensor_len_Ok t w n w' :
  tensor_len t w = Ok (n, w') -> n = length (contents (w_heap w) t) /\ w' = w.
Proof. unfold tensor_len. intros [= <- <-]. split; reflexivity. Qed.

Lemma getitem_Ok t i w x w' :
  getitem t i w = Ok (x, w') -> contents (w_heap w) t !! i = Some x /\ w' = w.
Proof.
  unfold getitem. intros (v & w1 & [-> ->]%read_Ok & [Hi ->]%lift_Ok)%bind_Ok.
  split; [| reflexivity].
  unfold Tensor.index in Hi.
  destruct (contents (w_heap w) t !! i); congruence.
Qed.

Lemma getitem_intro t i w x :
  contents (w_heap w) t !! i = Some x -> getitem t i w = Ok (x, w).
Proof.
  intros Hi. unfold getitem, bind, read, lift, Tensor.index. rewrite Hi.
  reflexivity.
Qed.

End MonadFacts.

(** ** C7: the kinetic energy *)




(** ** The heap *)

Module HeapFacts.

Lemma storage_write_eq h t i x :
  storage (write h t i x) (sto t) = <[i := x]> (storage h (sto t)).
Proof.
  unfold storage, write. rewrite list_lookup_alter_eq.
  destruct (h !! sto t); reflexivity.
Qed.

Lemma storage_write_ne h t i x l :
  l <> sto t -> storage (write h t i x) l = storage h l.
Proof.
  intros Hne. unfold storage, write.
  rewrite list_lookup_alter_ne by congruence. reflexivity.
Qed.

Lemma length_write h t i x : length (write h t i x) = length h.
Proof. apply length_alter. Qed.

(** A write is seen through every view of the same storage and through
    no other tensor. *)
Lemma contents_write h t i x t' :
  contents (write h t i x) t' =
    if decide (sto t' = sto t)
    then take (tlen t') (<[i := x]> (storage h (sto t)))
    else contents h t'.
Proof.
  unfold contents. destruct (decide (sto t' = sto t)) as [E | Hne].
  - rewrite E, storage_write_eq. reflexivity.
  - rewrite storage_write_ne by exact Hne. reflexivity.
Qed.


Lemma contents_write_same h t i x :
  contents (write h t i x) t = <[i := x]> (contents h t).
Proof.
  rewrite contents_write, decide_True by reflexivity.
  unfold contents. destruct (decide (i < tlen t)) as [Hlt | Hge].
  - apply take_insert_lt. exact Hlt.
  - rewrite take_insert_ge by lia.
    rewrite list_insert_ge; [reflexivity |]. rewrite length_take. lia.
Qed.

Lemma length_contents_write h t i x t' :
  length (contents (write h t i x) t') = length (contents h t').
Proof.
  rewrite contents_write. destruct (decide _) as [E | _]; [| reflexivity].
  unfold contents. rewrite E, !length_take, length_insert. reflexivity.
Qed.


Lemma contents_alloc_new h v :
  contents (h ++ [v]) (TRef (length h) (length v)) = v.
Proof.
  unfold contents, storage; simpl.
  rewrite lookup_app_r by lia. rewrite Nat.sub_diag. simpl.
  apply take_ge. lia.
Qed.

Lemma contents_alloc_new' h v m :
  length v = m -> contents (h ++ [v]) (TRef (length h) m) = v.
Proof. intros <-. apply contents_alloc_new. Qed.

Lemma contents_view h t n : contents h (view t n) = take n (contents h t).
Proof. unfold contents, view; simpl. rewrite take_take. reflexivity. Qed.

Lemma valid_alloc h v t : valid h t -> valid (h ++ [v]) t.
Proof. unfold valid. rewrite length_app. simpl. lia. Qed.

Lemma valid_write h t i x t' : valid h t' -> valid (write h t i x) t'.
Proof. unfold valid. rewrite length_write. auto. Qed.

End HeapFacts.

(** ** The coordinate integrator *)

Section CoordIntegrator.

Context `{Backend} {T : Type}.

Implicit Types (run_prog : oracle T) (state : State.t)
  (result : ProbRun T) (w : world).

Lemma setitem_Ok t i x w u w' :
  setitem t i x w = Ok (u, w') ->
  i < length (contents (w_heap w) t) /\
  w' = World _ (w_gen w) (write (w_heap w) t i x) (w_log w).
Proof.
  unfold setitem. destruct (Nat.ltb_spec i (length (contents (w_heap w) t)));
    [| discriminate].
  intros E. injection E as _ <-. split; [assumption | reflexivity].
Qed.

Lemma call_Ok run_prog qv w r w' :
  call run_prog qv w = Ok (r, w') ->
  r = fst (run_prog qv (w_gen w)) /\
  w' = World _ (snd (run_prog qv (w_gen w))) (w_heap w)
             (w_log w ++ [EvRunProg qv]).
Proof.
  unfold call, log_event. destruct (run_prog qv (w_gen w)) as [r0 g].
  intros [= <- <-]. split; reflexivity.
Qed.

Lemma reflects_Ok state i new_U delta_U w c w' pi :
  contents (w_heap w) (State.p state) !! i = Some pi ->
  reflects state i new_U delta_U w = Ok (c, w') ->
  c = reflect_test new_U delta_U pi /\ w' = w.
Proof.
  intros Hpi. unfold reflects, reflect_test.
  destruct (negb (Num.isfinite new_U)); simpl.
  - intros [-> ->]%ret_Ok. split; reflexivity.
  - intros (x & w1 & [Hx ->]%getitem_Ok & [-> ->]%ret_Ok)%bind_Ok.
    rewrite Hpi in Hx. injection Hx as <-. split; reflexivity.
Qed.

(** What a call that returns has done, branch by branch. *)
Lemma coord_integrator_inv run_prog i eps state state_0 result w out w' :
  coord_integrator run_prog i eps state state_0 result w = Ok (out, w') ->
  exists qi pi,
    contents (w_heap w) (State.q state) !! i = Some qi /\
    contents (w_heap w) (State.p state) !! i = Some pi /\
    let qv := shifted (contents (w_heap w) (State.q state)) i eps qi pi in
    let new_result := fst (run_prog qv (w_gen w)) in
    let g1 := snd (run_prog qv (w_gen w)) in
    let log1 := w_log w ++ [EvRunProg qv] in
    let new_U := Num.neg (log_weight new_result) in
    let delta_U := Num.sub new_U (Num.neg (log_weight result)) in
    if reflect_test new_U delta_U pi then
      out = (state, state_0, result) /\
      w' = World _ g1 (write (w_heap w) (State.p state) i (Num.neg pi)) log1
    else
      exists st st0,
        out = (st, st0, new_result) /\
        (if Nat.ltb (len result) (len new_result)
         then extend state state_0 new_result (len result) (len new_result)
         else truncate state state_0 new_result (len new_result))
          (World _ g1
             (write (w_heap w) (State.p state) i
                    (Num.sub pi (Num.mul (Num.sign pi) delta_U)))
             log1) = Ok ((st, st0), w') /\
        check_lengths st st0 w' = Ok (tt, w').
Proof.
  unfold coord_integrator. intros Hrun.
  apply bind_Ok in Hrun as (qv & w1 & [-> ->]%read_Ok & Hrun).
  apply bind_Ok in Hrun as (qi & w1 & [Hqi ->]%lift_Ok & Hrun).
  apply bind_Ok in Hrun as (pi & w1 & [Hpi ->]%getitem_Ok & Hrun).
  apply bind_Ok in Hrun as (nr & w1 & [-> ->]%call_Ok & Hrun).
  apply bind_Ok in Hrun as (c & w1 & Hc & Hrun).
  eapply reflects_Ok in Hc as [Ec Ew]; [| exact Hpi].
  subst c w1.
  unfold Tensor.index in Hqi.
  destruct (contents (w_heap w) (State.q state) !! i) as [qi0 |] eqn:Eqi;
    [| discriminate].
  injection Hqi as ->.
  exists qi, pi. split; [reflexivity |]. split; [exact Hpi |].
  cbv zeta. unfold shifted.
  destruct (reflect_test _ _ pi).
  - apply bind_Ok in Hrun as (pi' & w1 & [Hpi' ->]%getitem_Ok & Hrun).
    simpl in Hpi'. rewrite Hpi in Hpi'. injection Hpi' as <-.
    apply bind_Ok in Hrun as (u & w1 & [_ ->]%setitem_Ok & Hrun).
    apply ret_Ok in Hrun as [-> ->]. split; reflexivity.
  - apply bind_Ok in Hrun as (pi' & w1 & [Hpi' ->]%getitem_Ok & Hrun).
    simpl in Hpi'. rewrite Hpi in Hpi'. injection Hpi' as <-.
    apply bind_Ok in Hrun as (u & w1 & [_ ->]%setitem_Ok & Hrun).
    apply bind_Ok in Hrun as ([st st0] & w2 & Hresize & Hrun).
    apply bind_Ok in Hrun as ([] & w3 & Hcheck & Hrun).
    assert (Hw : w3 = w2).
    { unfold check_lengths in Hcheck.
      apply bind_Ok in Hcheck as (? & ? & [-> ->]%tensor_len_Ok & Hcheck).
      apply bind_Ok in Hcheck as (? & ? & [-> ->]%tensor_len_Ok & Hcheck).
      apply bind_Ok in Hcheck as (? & ? & [_ ->]%assert_Ok & Hcheck).
      apply bind_Ok in Hcheck as (? & ? & [-> ->]%tensor_len_Ok & Hcheck).
      apply bind_Ok in Hcheck as (? & ? & [_ ->]%assert_Ok & Hcheck).
      apply bind_Ok in Hcheck as (? & ? & [_ ->]%assert_Ok & Hcheck).
      apply assert_Ok in Hcheck as [_ ->]. reflexivity. }
    subst w3. apply ret_Ok in Hrun as [-> ->].
    exists st, st0. split; [reflexivity |]. split; [exact Hresize | exact Hcheck].
Qed.

End CoordIntegrator.

Section CoordIntegratorCases.

Context `{Backend} {T : Type}.

Implicit Types (run_prog : oracle T) (state : State.t)
  (result : ProbRun T) (w : world).

Lemma check_lengths_Ok (st st0 : State.t) w u w' :
  check_lengths st st0 w = Ok (u, w') ->
  w' = w /\ lengths_agree (w_heap w) st st0.
Proof.
  unfold check_lengths, lengths_agree. intros Hc.
  apply bind_Ok in Hc as (? & ? & [-> ->]%tensor_len_Ok & Hc).
  apply bind_Ok in Hc as (? & ? & [-> ->]%tensor_len_Ok & Hc).
  apply bind_Ok in Hc as (? & ? & [E1 ->]%assert_Ok & Hc).
  apply bind_Ok in Hc as (? & ? & [-> ->]%tensor_len_Ok & Hc).
  apply bind_Ok in Hc as (? & ? & [E2 ->]%assert_Ok & Hc).
  apply bind_Ok in Hc as (? & ? & [E3 ->]%assert_Ok & Hc).
  apply assert_Ok in Hc as [E4 ->].
  apply Nat.eqb_eq in E1, E2, E3, E4. auto.
Qed.

Lemma check_lengths_intro (st st0 : State.t) w :
  lengths_agree (w_heap w) st st0 -> check_lengths st st0 w = Ok (tt, w).
Proof.
  intros (E1 & E2 & E3 & E4).
  unfold check_lengths, bind, tensor_len, assert, ret.
  apply Nat.eqb_eq in E1, E2, E3, E4.
  rewrite E1. cbv beta iota. rewrite E2. cbv beta iota.
  rewrite E3. cbv beta iota. rewrite E4. reflexivity.
Qed.

(** The state of the world when [coord_integrator] decides. *)
Lemma coord_integrator_cases run_prog i eps state (state_0 : State.t)
    result w out w' :
  coord_integrator run_prog i eps state state_0 result w = Ok (out, w') ->
  exists pi qv nr g1,
    probe run_prog i eps state w = Some (pi, qv, nr, g1) /\
    if reflected result nr pi then
      out = (state, state_0, result) /\
      w' = World _ g1 (write (w_heap w) (State.p state) i (Num.neg pi))
                 (w_log w ++ [EvRunProg qv])
    else
      exists st st0,
        out = (st, st0, nr) /\
        (if Nat.ltb (len result) (len nr)
         then extend state state_0 nr (len result) (len nr)
         else truncate state state_0 nr (len nr))
          (World _ g1
             (write (w_heap w) (State.p state) i (refracted result nr pi))
             (w_log w ++ [EvRunProg qv])) = Ok ((st, st0), w') /\
        lengths_agree (w_heap w') st st0.
Proof.
  intros Hrun.
  apply coord_integrator_inv in Hrun as (qi & pi & Hqi & Hpi & Hrun).
  cbv zeta in Hrun. unfold probe. rewrite Hqi, Hpi.
  destruct (run_prog _ (w_gen w)) as [nr g1] eqn:Er. simpl in Hrun.
  exists pi, (shifted (contents (w_heap w) (State.q state)) i eps qi pi), nr, g1.
  split; [reflexivity |].
  unfold reflected, refracted, delta_U.
  destruct (reflect_test _ _ pi); [exact Hrun |].
  destruct Hrun as (st & st0 & -> & Hres & [_ Hl]%check_lengths_Ok).
  exists st, st0. auto.
Qed.

(** A call that reflects returns, with the fields of both states and the
    result bundle as they were. *)
Lemma coord_integrator_reflect run_prog i eps state (state_0 : State.t)
    result w pi qv nr g1 :
  probe run_prog i eps state w = Some (pi, qv, nr, g1) ->
  reflected result nr pi = true ->
  coord_integrator run_prog i eps state state_0 result w =
    Ok ((state, state_0, result),
        World _ g1 (write (w_heap w) (State.p state) i (Num.neg pi))
              (w_log w ++ [EvRunProg qv])).
Proof.
  unfold probe, reflected, delta_U. intros Hp Hr.
  destruct (contents (w_heap w) (State.q state) !! i) as [qi |] eqn:Hqi;
    [| discriminate].
  destruct (contents (w_heap w) (State.p state) !! i) as [pi0 |] eqn:Hpi;
    [| discriminate].
  destruct (run_prog _ (w_gen w)) as [r g] eqn:Er.
  injection Hp as -> <- <- <-.
  assert (Hlt : i < length (contents (w_heap w) (State.p state))).
  { apply lookup_lt_Some in Hpi. exact Hpi. }
  unfold coord_integrator.
  rewrite (bind_Ok_intro _ _ w _ w eq_refl).
  unfold Tensor.index at 1. rewrite Hqi.
  rewrite (bind_Ok_intro _ _ w qi w eq_refl).
  rewrite (bind_Ok_intro _ _ w _ w (getitem_intro _ _ _ _ Hpi)).
  unfold shifted in Er.
  unfold bind at 1. unfold call. rewrite Er.
  unfold bind at 1. unfold reflects. unfold reflect_test in Hr.
  destruct (negb (Num.isfinite (Num.neg (log_weight r)))) eqn:Ef.
  - unfold ret at 1. unfold bind at 1.
    rewrite getitem_intro with (x := pi) by exact Hpi.
    unfold bind, setitem. simpl.
    apply Nat.ltb_lt in Hlt. rewrite Hlt. reflexivity.
  - simpl in Hr. unfold bind at 1.
    rewrite getitem_intro with (x := pi) by exact Hpi.
    unfold ret at 1. rewrite Hr. unfold bind at 1.
    rewrite getitem_intro with (x := pi) by exact Hpi.
    unfold bind, setitem. simpl.
    apply Nat.ltb_lt in Hlt. rewrite Hlt. reflexivity.
Qed.

Lemma probe_valid run_prog i eps state w pi qv nr g1 :
  probe run_prog i eps state w = Some (pi, qv, nr, g1) ->
  contents (w_heap w) (State.p state) !! i = Some pi /\
  valid (w_heap w) (State.p state) /\ valid (w_heap w) (State.q state).
Proof.
  unfold probe. intros Hp.
  destruct (contents (w_heap w) (State.q state) !! i) as [qi |] eqn:Hqi;
    [| discriminate].
  destruct (contents (w_heap w) (State.p state) !! i) as [pi0 |] eqn:Hpi;
    [| discriminate].
  destruct (run_prog _ (w_gen w)) as [r g].
  injection Hp as -> _ _ _. split; [reflexivity |].
  unfold contents, storage, valid in *.
  split.
  - destruct (w_heap w !! sto (State.p state)) eqn:E.
    + apply lookup_lt_Some in E. exact E.
    + simpl in Hpi. rewrite take_nil in Hpi. discriminate.
  - destruct (w_heap w !! sto (State.q state)) eqn:E.
    + apply lookup_lt_Some in E. exact E.
    + simpl in Hqi. rewrite take_nil in Hqi. discriminate.
Qed.

End CoordIntegratorCases.

(** ** C10: what a reflection leaves as it is *)




(** ** Growth and truncation *)

Section Resize.

Context `{Backend} {T : Type}.

Lemma draw_n_length (d : gen -> num * gen) n : forall g,
  length (fst (draw_n d n g)) = n.
Proof.
  induction n as [| n IH]; intros g; simpl; [reflexivity |].
  destruct (d g) as [x g1]. specialize (IH g1).
  destruct (draw_n d n g1) as [xs g2]. simpl in *. lia.
Qed.

Lemma contents_app_old h k t :
  valid h t -> contents (h ++ k) t = contents h t.
Proof.
  unfold valid, contents, storage. intros Hv.
  rewrite lookup_app_l by exact Hv. reflexivity.
Qed.

Lemma truncate_eq (state state_0 : State.t) (r : ProbRun T) N2 (w : world) :
  truncate state state_0 r N2 w =
    Ok ((State.mk (TRef (length (w_heap w)) (length (take N2 (samples r))))
                  (view (State.p state) N2) (take N2 (is_cont r)),
         State.mk (State.q state_0) (view (State.p state_0) N2)
                  (take N2 (State.is_cont state_0))),
        World _ (w_gen w) (w_heap w ++ [take N2 (samples r)]) (w_log w)).
Proof. reflexivity. Qed.

Lemma extend_Ok (state state_0 : State.t) (r : ProbRun T) N N2 (w : world)
    st st0 w' :
  extend state state_0 r N N2 w = Ok ((st, st0), w') ->
  let gd := draw_n normal1 (N2 - N) (w_gen w) in
  let ld := draw_n laplace1 (N2 - N) (snd gd) in
  let h1 := w_heap w ++ [samples r] in
  exists pad,
    padding (fst gd) (fst ld) (Tensor.slice N N2 (is_cont r)) = Ok pad /\
    let p0 := contents h1 (State.p state_0) in
    let h2 := h1 ++ [p0 ++ pad] in
    let pv := contents h2 (State.p state) in
    w' = World _ (snd ld) (h2 ++ [pv ++ pad])
               ((w_log w ++ [EvNormal (N2 - N)]) ++ [EvLaplace (N2 - N)]) /\
    st = State.mk (TRef (length (w_heap w)) (length (samples r)))
                  (TRef (length h2) (length (pv ++ pad))) (is_cont r) /\
    st0 = State.mk (State.q state_0) (TRef (length h1) (length (p0 ++ pad)))
                   (State.is_cont state_0 ++ Tensor.slice N N2 (is_cont r)).
Proof.
  unfold extend. intros He. cbv zeta.
  unfold bind at 1 in He. unfold alloc at 1 in He.
  unfold bind at 1 in He. unfold sample_normal at 1 in He. simpl in He.
  destruct (draw_n normal1 (N2 - N) (w_gen w)) as [gauss g1] eqn:Eg.
  cbn [fst snd].
  unfold bind at 1 in He. unfold sample_laplace at 1 in He. simpl in He.
  destruct (draw_n laplace1 (N2 - N) g1) as [laplace g2] eqn:El.
  cbn [fst snd].
  apply bind_Ok in He as (pad & w1 & [Hpad ->]%lift_Ok & He).
  exists pad. simpl. split; [exact Hpad |].
  unfold bind, read, alloc, ret in He. simpl in He.
  unfold log_event in He. simpl in He.
  injection He as <- <- <-. rewrite !length_app. simpl.
  repeat split; reflexivity.
Qed.

(** The padding of line 134 takes, entry by entry, the Gaussian or the
    Laplace value, when the values it does not take are finite. *)
Lemma padding_fresh gauss : forall laplace mask,
  length gauss = length mask -> length laplace = length mask ->
  Forall (fun x => Num.isfinite x = true) gauss ->
  Forall (fun x => Num.isfinite x = true) laplace ->
  exists pad,
    padding gauss laplace mask = Ok pad /\
    Forall2 Num.same pad (fresh_momentum gauss laplace mask).
Proof.
  intros laplace mask Eg El Hg Hl.
  unfold padding, Tensor.mul_mask, Tensor.add.
  rewrite (EnergyFacts.bcast2_same_length _ _ _ Eg).
  rewrite EnergyFacts.bcast2_same_length by (rewrite length_map; exact El).
  rewrite EnergyFacts.bcast2_same_length
    by (rewrite !length_zip_with, length_map; lia).
  eexists; split; [reflexivity |].
  revert laplace mask Eg El Hg Hl.
  induction gauss as [| g gauss IH]; intros [| l laplace] [| b mask] Eg El Hg Hl;
    simpl in *; try lia; [constructor |].
  inversion Hg as [| ? ? Hg1 Hg2]; inversion Hl as [| ? ? Hl1 Hl2]; subst.
  constructor; [| apply IH; auto; lia].
  destruct g as [| | | x]; try discriminate.
  destruct l as [| | | y]; try discriminate.
  destruct b; simpl; rewrite !Qred_correct; ring.
Qed.

End Resize.

(** ** C1: reflection and refraction *)

Section Branches.

Context `{Backend} {T : Type}.


End Branches.




(** ** C2: the lengths after a call *)



(** ** C4: growth and truncation of the two states *)


Section ResizeSpec.

Context `{Backend} {T : Type}.




End ResizeSpec.



(** ** The driver: one iteration *)

Section Iteration.

Context `{Backend} {T : Type}.

Lemma draw_rand_Ok (w : world) u w' :
  draw_rand w = Ok (u, w') ->
  u = fst (rand (w_gen w)) /\
  w' = World _ (snd (rand (w_gen w))) (w_heap w) (w_log w ++ [EvRand]).
Proof.
  unfold draw_rand, log_event. destruct (rand (w_gen w)) as [x g].
  intros [= <- <-]. split; reflexivity.
Qed.

Lemma kinetic_energy_Ok (s : State.t) (w : world) K w' :
  State.kinetic_energy s w = Ok (K, w') ->
  State.energy (contents (w_heap w) (State.p s)) (State.is_cont s) = Ok K /\
  w' = w.
Proof.
  unfold State.kinetic_energy.
  intros (pv & w1 & [-> ->]%read_Ok & [HK ->]%lift_Ok)%bind_Ok.
  split; [exact HK | reflexivity].
Qed.

(** The Metropolis test on the values it computes. *)
Lemma accepts_Ok (state state_0 : State.t) (prev_res result : ProbRun T)
    (w : world) a w' :
  accepts state state_0 prev_res result w = Ok (a, w') ->
  exists K_0 K,
    State.kinetic_energy state_0 w = Ok (K_0, w) /\
    State.kinetic_energy state w = Ok (K, w) /\
    let U_0 := Num.neg (log_weight prev_res) in
    let U := Num.neg (log_weight result) in
    let accept_prob := fexp (Num.sub (Num.sub (Num.add U_0 K_0) U) K) in
    if Num.ne_inf U then
      a = Num.lt (fst (rand (w_gen w))) accept_prob /\
      w' = World _ (snd (rand (w_gen w))) (w_heap w) (w_log w ++ [EvRand])
    else a = false /\ w' = w.
Proof.
  unfold accepts. intros Ha.
  apply bind_Ok in Ha as (K_0 & w1 & HK0 & Ha).
  pose proof (kinetic_energy_Ok _ _ _ _ HK0) as [_ ->].
  apply bind_Ok in Ha as (K & w1 & HK & Ha).
  pose proof (kinetic_energy_Ok _ _ _ _ HK) as [_ ->].
  exists K_0, K. split; [exact HK0 |]. split; [exact HK |]. cbv zeta.
  destruct (Num.ne_inf (Num.neg (log_weight result))).
  - apply bind_Ok in Ha as (u & w1 & [-> ->]%draw_rand_Ok & [-> ->]%ret_Ok).
    split; reflexivity.
  - apply ret_Ok in Ha as [-> ->]. split; reflexivity.
Qed.

(** The parts of one iteration of the loop of [np_dhmc]. *)
Lemma np_dhmc_iter_inv (run_prog : oracle T) leapfrog_steps eps
    (d : Driver.t T) (w : world) d' w' :
  np_dhmc_iter run_prog leapfrog_steps eps d w = Ok (d', w') ->
  exists dt s s0 w0 state state_0 result w1 a,
    propose eps (Driver.q d) (Driver.is_cont d) w = Ok ((dt, s, s0), w0) /\
    leapfrog run_prog (Z.to_nat leapfrog_steps) dt s s0 (Driver.result d) w0 =
      Ok ((state, state_0, result), w1) /\
    accepts state state_0 (Driver.result d) result w1 = Ok (a, w') /\
    d' = if a
         then Driver.mk (State.q state) (State.is_cont state) result
                (Driver.final_samples d ++ [value result])
                (S (Driver.accept_count d))
         else Driver.mk (Driver.q d) (Driver.is_cont d) (Driver.result d)
                (Driver.final_samples d ++ [value (Driver.result d)])
                (Driver.accept_count d).
Proof.
  unfold np_dhmc_iter. intros Hi.
  apply bind_Ok in Hi as ([[dt s] s0] & w0 & Hprop & Hi).
  apply bind_Ok in Hi as ([[state state_0] result] & w1 & Hleap & Hi).
  apply bind_Ok in Hi as (a & w2 & Hacc & Hi).
  exists dt, s, s0, w0, state, state_0, result, w1, a.
  split; [exact Hprop |]. split; [exact Hleap |].
  destruct a; apply ret_Ok in Hi as [-> ->]; split; auto.
Qed.

End Iteration.

Module EnergyDifference.


End EnergyDifference.

(** ** C3: the acceptance test *)




(** ** C8: the energy barrier inside a trajectory *)

Section Barrier.

Context `{Backend} {T : Type}.


Lemma kinetic_energy_total (s : State.t) (w : world) :
  length (contents (w_heap w) (State.p s)) = length (State.is_cont s) ->
  exists K, State.kinetic_energy s w = Ok (K, w).
Proof.
  intros E. unfold State.kinetic_energy, bind, read, lift.
  rewrite (EnergyFacts.energy_same_length _ _ E). eexists. reflexivity.
Qed.

Lemma accepts_total (state state_0 : State.t) (prev_res result : ProbRun T)
    (w : world) :
  length (contents (w_heap w) (State.p state)) = length (State.is_cont state) ->
  length (contents (w_heap w) (State.p state_0)) =
    length (State.is_cont state_0) ->
  exists a w', accepts state state_0 prev_res result w = Ok (a, w').
Proof.
  intros E E0.
  destruct (kinetic_energy_total _ _ E) as (K & HK).
  destruct (kinetic_energy_total _ _ E0) as (K_0 & HK0).
  unfold accepts.
  rewrite (bind_Ok_intro _ _ _ _ _ HK0), (bind_Ok_intro _ _ _ _ _ HK).
  destruct (Num.ne_inf _).
  - unfold bind, draw_rand. destruct (rand (w_gen w)). simpl.
    do 2 eexists. reflexivity.
  - do 2 eexists. reflexivity.
Qed.

Lemma np_dhmc_iter_intro (run_prog : oracle T) leapfrog_steps eps
    (d : Driver.t T) (w : world) dt s s0 w0 state state_0 result w1 a w' :
  propose eps (Driver.q d) (Driver.is_cont d) w = Ok ((dt, s, s0), w0) ->
  leapfrog run_prog (Z.to_nat leapfrog_steps) dt s s0 (Driver.result d) w0 =
    Ok ((state, state_0, result), w1) ->
  accepts state state_0 (Driver.result d) result w1 = Ok (a, w') ->
  np_dhmc_iter run_prog leapfrog_steps eps d w =
    Ok (if a
        then Driver.mk (State.q state) (State.is_cont state) result
               (Driver.final_samples d ++ [value result])
               (S (Driver.accept_count d))
        else Driver.mk (Driver.q d) (Driver.is_cont d) (Driver.result d)
               (Driver.final_samples d ++ [value (Driver.result d)])
               (Driver.accept_count d), w').
Proof.
  intros Hp Hl Ha. unfold np_dhmc_iter.
  rewrite (bind_Ok_intro _ _ _ _ _ Hp). cbv beta iota.
  rewrite (bind_Ok_intro _ _ _ _ _ Hl). cbv beta iota.
  rewrite (bind_Ok_intro _ _ _ _ _ Ha).
  destruct a; reflexivity.
Qed.

End Barrier.



(** ** What a trajectory leaves as it is *)

Section Frame.

Context `{Backend} {T : Type}.

Lemma grows_refl n (w : world) : grows n w w.
Proof.
  unfold grows. split; [lia |]. split; [reflexivity |].
  exists []. rewrite app_nil_r. reflexivity.
Qed.

Lemma grows_trans n (w1 w2 w3 : world) :
  grows n w1 w2 -> grows n w2 w3 -> grows n w1 w3.
Proof.
  intros (L1 & P1 & e1 & E1) (L2 & P2 & e2 & E2). unfold grows.
  split; [lia |]. split; [congruence |].
  exists (e1 ++ e2). rewrite E2, E1, app_assoc. reflexivity.
Qed.

(** the three ways in which the world changes *)
Lemma grows_step n (w : world) g' k evs :
  n <= length (w_heap w) ->
  grows n w (World _ g' (w_heap w ++ k) (w_log w ++ evs)).
Proof.
  intros Hn. unfold grows; simpl. rewrite length_app.
  split; [lia |]. split; [apply take_app_le; exact Hn |].
  exists evs. reflexivity.
Qed.

Lemma grows_app n (w : world) g' k :
  n <= length (w_heap w) ->
  grows n w (World _ g' (w_heap w ++ k) (w_log w)).
Proof.
  intros Hn. unfold grows; simpl. rewrite length_app.
  split; [lia |]. split; [apply take_app_le; exact Hn |].
  exists []. rewrite app_nil_r. reflexivity.
Qed.

Lemma grows_write n (w : world) g' t i x evs :
  n <= sto t ->
  grows n w (World _ g' (write (w_heap w) t i x) (w_log w ++ evs)).
Proof.
  intros Hn. unfold grows; simpl. rewrite HeapFacts.length_write.
  split; [lia |]. split; [apply take_alter_ge; exact Hn |].
  exists evs. reflexivity.
Qed.

(** tensors below the bound hold what they held *)
Lemma grows_contents n (w w' : world) t :
  grows n w w' -> sto t < n -> contents (w_heap w') t = contents (w_heap w) t.
Proof.
  intros (_ & P & _) Hlt. unfold contents, storage.
  rewrite <- (lookup_take_lt (w_heap w') n) by exact Hlt.
  rewrite <- (lookup_take_lt (w_heap w) n) by exact Hlt.
  rewrite P. reflexivity.
Qed.

Lemma grows_valid n (w w' : world) t :
  grows n w w' -> valid (w_heap w) t -> valid (w_heap w') t.
Proof. intros (L & _) Hv. unfold valid in *. lia. Qed.

Lemma grows_length n (w w' : world) :
  grows n w w' -> n <= length (w_heap w) -> n <= length (w_heap w').
Proof. intros (L & _) Hn. lia. Qed.

Lemma half_kick_Ok eps (state : State.t) (result : ProbRun T) (w : world)
    st w' :
  half_kick eps state result w = Ok (st, w') ->
  exists v,
    w' = World _ (w_gen w) (w_heap w ++ [v]) (w_log w) /\
    st = State.mk (State.q state) (TRef (length (w_heap w)) (length v))
                  (State.is_cont state).
Proof.
  unfold half_kick. intros Hk.
  apply bind_Ok in Hk as (pv & w1 & [-> ->]%read_Ok & Hk).
  apply bind_Ok in Hk as (k & w1 & [_ ->]%lift_Ok & Hk).
  apply bind_Ok in Hk as (v & w1 & [_ ->]%lift_Ok & Hk).
  unfold bind, alloc, ret in Hk. injection Hk as <- <-.
  exists v. split; reflexivity.
Qed.

Lemma half_drift_Ok eps (state : State.t) (w : world) st w' :
  half_drift eps state w = Ok (st, w') ->
  exists v,
    w' = World _ (w_gen w) (w_heap w ++ [v]) (w_log w) /\
    st = State.mk (TRef (length (w_heap w)) (length v)) (State.p state)
                  (State.is_cont state).
Proof.
  unfold half_drift. intros Hk.
  apply bind_Ok in Hk as (qv & w1 & [-> ->]%read_Ok & Hk).
  apply bind_Ok in Hk as (pv & w1 & [-> ->]%read_Ok & Hk).
  apply bind_Ok in Hk as (k & w1 & [_ ->]%lift_Ok & Hk).
  apply bind_Ok in Hk as (v & w1 & [_ ->]%lift_Ok & Hk).
  unfold bind, alloc, ret in Hk. injection Hk as <- <-.
  exists v. split; reflexivity.
Qed.

(** A call of the coordinate integrator writes only to the working
    momentum, which stays above the bound when it was. *)
Lemma coord_integrator_grows n (run_prog : oracle T) i eps
    (state state_0 : State.t) (result : ProbRun T) (w : world) st st0 r w' :
  n <= length (w_heap w) -> n <= sto (State.p state) ->
  coord_integrator run_prog i eps state state_0 result w =
    Ok ((st, st0, r), w') ->
  grows n w w' /\ n <= sto (State.p st) /\
  (valid (w_heap w) (State.q state) -> valid (w_heap w') (State.q st)).
Proof.
  intros Hn Hp Hrun.
  apply coord_integrator_cases in Hrun as (pi & qv & nr & g1 & _ & Hrun).
  destruct (reflected result nr pi).
  - destruct Hrun as [E ->]. injection E as <- <- <-.
    split; [apply grows_write; exact Hp |]. split; [exact Hp |].
    simpl. apply HeapFacts.valid_write.
  - destruct Hrun as (st1 & st2 & E & Hres & _). injection E as <- <- ->.
    pose proof (grows_write n w g1 (State.p state) i (refracted result nr pi)
                  [EvRunProg qv] Hp) as G1.
    destruct (Nat.ltb (len result) (len nr)).
    + apply extend_Ok in Hres as (pad & _ & -> & -> & ->). simpl in *.
      split; [| split].
      * eapply grows_trans; [exact G1 |].
        unfold grows; simpl.
        rewrite !length_app, HeapFacts.length_write. simpl.
        split; [lia |]. split.
        -- rewrite <- !app_assoc. apply take_app_le.
           rewrite HeapFacts.length_write. exact Hn.
        -- eexists. rewrite <- app_assoc. reflexivity.
      * rewrite !length_app, HeapFacts.length_write. simpl. lia.
      * intros _. unfold valid. simpl.
        rewrite !length_app, HeapFacts.length_write. simpl. lia.
    + rewrite truncate_eq in Hres. injection Hres as <- <- <-. simpl in *.
      split; [| split].
      * eapply grows_trans; [exact G1 |].
        unfold grows; simpl.
        rewrite !length_app, HeapFacts.length_write. simpl.
        split; [lia |]. split.
        -- apply take_app_le. rewrite HeapFacts.length_write. exact Hn.
        -- exists []. rewrite app_nil_r. reflexivity.
      * exact Hp.
      * intros _. unfold valid. simpl.
        rewrite !length_app, HeapFacts.length_write. simpl. lia.
Qed.

Lemma sweep_grows n (run_prog : oracle T) eps : forall js
    (state state_0 : State.t) (result : ProbRun T) (w : world) st st0 r w',
  n <= length (w_heap w) -> n <= sto (State.p state) ->
  sweep run_prog eps js state state_0 result w = Ok ((st, st0, r), w') ->
  grows n w w' /\
  (valid (w_heap w) (State.q state) -> valid (w_heap w') (State.q st)).
Proof.
  induction js as [| j js IH]; intros state state_0 result w st st0 r w' Hn Hp Hs.
  - simpl in Hs. apply ret_Ok in Hs as [[= <- <- <-] ->].
    split; [apply grows_refl | auto].
  - simpl in Hs.
    apply bind_Ok in Hs as (len_q & w1 & [-> ->]%tensor_len_Ok & Hs).
    destruct (Nat.leb _ j).
    + eapply IH; eassumption.
    + apply bind_Ok in Hs as ([[s1 s2] r1] & w1 & Hci & Hs).
      eapply (coord_integrator_grows n) in Hci as (G1 & Hp1 & Hv1);
        [| assumption | assumption].
      eapply IH in Hs as (G2 & Hv2);
        [| eapply grows_length; eassumption | assumption].
      split; [eapply grows_trans; eassumption | auto].
Qed.

Lemma call_grows n (run_prog : oracle T) qv (w : world) r w' :
  call run_prog qv w = Ok (r, w') ->
  grows n w w' /\ w_heap w' = w_heap w.
Proof.
  intros [-> ->]%call_Ok. simpl. split; [| reflexivity].
  unfold grows; simpl. split; [lia |]. split; [reflexivity |].
  eexists. reflexivity.
Qed.

(** A leapfrog step writes to no tensor that existed before it. *)
Lemma integrator_step_grows n (run_prog : oracle T) eps
    (state state_0 : State.t) (w : world) st st0 r w' :
  n <= length (w_heap w) ->
  integrator_step run_prog eps state state_0 w = Ok ((st, st0, r), w') ->
  grows n w w' /\ valid (w_heap w') (State.q st).
Proof.
  intros Hn Hstep. unfold integrator_step in Hstep.
  apply bind_Ok in Hstep as (qv & w1 & [-> ->]%read_Ok & Hstep).
  apply bind_Ok in Hstep as (r1 & w1 & [G1 E1]%(call_grows n) & Hstep).
  apply bind_Ok in Hstep as (s1 & w2 & (v1 & -> & ->)%half_kick_Ok & Hstep).
  apply bind_Ok in Hstep as (s2 & w3 & (v2 & -> & ->)%half_drift_Ok & Hstep).
  simpl in Hstep.
  apply bind_Ok in Hstep as (qv2 & w4 & [-> ->]%read_Ok & Hstep).
  apply bind_Ok in Hstep as (r2 & w4 & [G4 E4]%(call_grows n) & Hstep).
  apply bind_Ok in Hstep as (perm & w5 & Hperm & Hstep).
  apply bind_Ok in Hstep as (js & w6 & [_ ->]%lift_Ok & Hstep).
  apply bind_Ok in Hstep as ([[s3 s4] r3] & w6 & Hsweep & Hstep).
  apply bind_Ok in Hstep as (s5 & w7 & (v5 & -> & ->)%half_drift_Ok & Hstep).
  simpl in Hstep.
  apply bind_Ok in Hstep as (qv5 & w8 & [-> ->]%read_Ok & Hstep).
  apply bind_Ok in Hstep as (r5 & w8 & [G8 E8]%(call_grows n) & Hstep).
  apply bind_Ok in Hstep as (s6 & w9 & (v6 & -> & ->)%half_kick_Ok & Hstep).
  apply ret_Ok in Hstep as [[= -> -> ->] ->].
  assert (Hn1 : n <= length (w_heap w1)) by (rewrite E1; exact Hn).
  assert (G3 : grows n w1 (World _ (w_gen w1)
                             ((w_heap w1 ++ [v1]) ++ [v2]) (w_log w1))).
  { rewrite <- app_assoc. apply grows_app. exact Hn1. }
  simpl in E4.
  assert (Hn4 : n <= length (w_heap w4))
    by (rewrite E4, !length_app; simpl; lia).
  assert (G5 : grows n w4 w5 /\ w_heap w5 = w_heap w4).
  { unfold draw_randperm, log_event in Hperm.
    destruct (randperm _ (w_gen w4)) as [xs g]. injection Hperm as _ <-.
    simpl. split; [| reflexivity].
    unfold grows; simpl. split; [lia |]. split; [reflexivity |].
    eexists. reflexivity. }
  destruct G5 as [G5 E5].
  eapply (sweep_grows n) in Hsweep as (G6 & _);
    [| rewrite E5; exact Hn4 | simpl; exact Hn1].
  assert (Hn6 : n <= length (w_heap w6)).
  { eapply grows_length; [exact G6 |]. rewrite E5. exact Hn4. }
  assert (G7 : grows n w6 (World _ (w_gen w6) (w_heap w6 ++ [v5]) (w_log w6))).
  { apply grows_app. exact Hn6. }
  simpl in E8.
  assert (G9 : grows n w8 (World _ (w_gen w8) (w_heap w8 ++ [v6]) (w_log w8))).
  { apply grows_app. rewrite E8, length_app. simpl. lia. }
  split.
  - eapply grows_trans; [exact G1 |].
    eapply grows_trans; [exact G3 |].
    eapply grows_trans; [exact G4 |].
    eapply grows_trans; [exact G5 |].
    eapply grows_trans; [exact G6 |].
    eapply grows_trans; [exact G7 |].
    eapply grows_trans; [exact G8 |]. exact G9.
  - unfold valid. simpl. rewrite length_app, E8, length_app. simpl. lia.
Qed.

Lemma leapfrog_grows n (run_prog : oracle T) dt : forall k
    (s s0 : State.t) (r : ProbRun T) (w : world) state state_0 result w1,
  n <= length (w_heap w) ->
  leapfrog run_prog k dt s s0 r w = Ok ((state, state_0, result), w1) ->
  grows n w w1 /\
  (valid (w_heap w) (State.q s) -> valid (w_heap w1) (State.q state)).
Proof.
  induction k as [| k IH]; intros s s0 r w state state_0 result w1 Hn Hl.
  - simpl in Hl. apply ret_Ok in Hl as [[= <- <- <-] ->].
    split; [apply grows_refl | auto].
  - simpl in Hl. destruct (negb (Num.isfinite (log_weight r))).
    + apply ret_Ok in Hl as [[= <- <- <-] ->].
      split; [apply grows_refl | auto].
    + apply bind_Ok in Hl as ([[s1 s2] r1] & w2 & Hstep & Hl).
      eapply (integrator_step_grows n) in Hstep as (G1 & Hv1); [| exact Hn].
      eapply IH in Hl as (G2 & Hv2); [| eapply grows_length; eassumption].
      split; [eapply grows_trans; eassumption | auto].
Qed.

End Frame.

(** ** C9 and C6: the draws of an iteration, and what a rejection keeps *)

Section Proposal.

Context `{Backend} {T : Type}.

(** The draws of lines 211-214, in the order in which they are made. *)
Lemma propose_Ok eps q0 mask (w : world) dt s s0 w0 :
  propose eps q0 mask w = Ok ((dt, s, s0), w0) ->
  let N := length (contents (w_heap w) q0) in
  let u := rand (w_gen w) in
  let gd := draw_n normal1 N (snd u) in
  let ld := draw_n laplace1 N (snd gd) in
  exists pv,
    padding (fst gd) (fst ld) mask = Ok pv /\
    dt = Num.mul (Num.add (fst u) Num.half) eps /\
    s = State.mk q0 (TRef (length (w_heap w)) (length pv)) mask /\
    s0 = s /\
    w0 = World _ (snd ld) (w_heap w ++ [pv])
               (w_log w ++ [EvRand; EvNormal N; EvLaplace N]).
Proof.
  unfold propose. intros Hp. cbv zeta.
  apply bind_Ok in Hp as (N & w1 & [-> ->]%tensor_len_Ok & Hp).
  apply bind_Ok in Hp as (u & w1 & [-> ->]%draw_rand_Ok & Hp).
  unfold bind at 1 in Hp. unfold sample_normal at 1 in Hp. simpl in Hp.
  destruct (draw_n normal1 _ (snd (rand (w_gen w)))) as [g g1] eqn:Eg.
  cbn [fst snd].
  apply bind_Ok in Hp as (gaussian & w1 & [Hg ->]%lift_Ok & Hp).
  unfold bind at 1 in Hp. unfold sample_laplace at 1 in Hp. simpl in Hp.
  destruct (draw_n laplace1 _ g1) as [l g2] eqn:El.
  apply bind_Ok in Hp as (laplace & w1 & [Hl ->]%lift_Ok & Hp).
  apply bind_Ok in Hp as (pv & w1 & [Hpv ->]%lift_Ok & Hp).
  unfold bind, alloc, ret, log_event in Hp. simpl in Hp.
  injection Hp as <- <- <- <-.
  exists pv. cbn [fst snd]. unfold padding. rewrite Hg, Hl.
  split; [exact Hpv |]. rewrite <- !app_assoc. simpl. auto.
Qed.

Lemma accepts_world (state state_0 : State.t) (prev_res result : ProbRun T)
    (w : world) a w' :
  accepts state state_0 prev_res result w = Ok (a, w') ->
  w_heap w' = w_heap w /\
  w_log w' =
    w_log w ++ (if Num.ne_inf (Num.neg (log_weight result)) then [EvRand]
                else []).
Proof.
  intros (K_0 & K & _ & _ & Ha)%accepts_Ok. cbv zeta in Ha.
  destruct (Num.ne_inf _); destruct Ha as [_ ->]; simpl.
  - split; reflexivity.
  - rewrite app_nil_r. split; reflexivity.
Qed.

(** An iteration writes to no tensor that existed before it. *)
Lemma np_dhmc_iter_grows (run_prog : oracle T) leapfrog_steps eps
    (d : Driver.t T) (w : world) d' w' :
  np_dhmc_iter run_prog leapfrog_steps eps d w = Ok (d', w') ->
  grows (length (w_heap w)) w w' /\
  (valid (w_heap w) (Driver.q d) -> valid (w_heap w') (Driver.q d')).
Proof.
  intros Hi.
  apply np_dhmc_iter_inv in Hi
    as (dt & s & s0 & w0 & state & state_0 & result & w1 & a &
        Hprop & Hleap & Hacc & ->).
  apply propose_Ok in Hprop as (pv & _ & _ & -> & -> & ->).
  assert (G0 : grows (length (w_heap w)) w
                 (World _ (snd (draw_n laplace1 (length (contents (w_heap w) (Driver.q d)))
                           (snd (draw_n normal1 (length (contents (w_heap w) (Driver.q d)))
                                   (snd (rand (w_gen w)))))))
                    (w_heap w ++ [pv])
                    (w_log w ++ [EvRand;
                       EvNormal (length (contents (w_heap w) (Driver.q d)));
                       EvLaplace (length (contents (w_heap w) (Driver.q d)))])))
    by (apply grows_step; lia).
  eapply (leapfrog_grows (length (w_heap w))) in Hleap as (G1 & Hv);
    [| simpl; rewrite length_app; lia].
  apply accepts_world in Hacc as (Eh & Elog).
  assert (G : grows (length (w_heap w)) w w').
  { eapply grows_trans; [exact G0 |].
    eapply grows_trans; [exact G1 |].
    unfold grows. rewrite Eh. split; [lia |]. split; [reflexivity |].
    eexists. exact Elog. }
  split; [exact G |].
  intros Hq. destruct a; simpl.
  - unfold valid. rewrite Eh. apply Hv. simpl.
    apply HeapFacts.valid_alloc. exact Hq.
  - eapply grows_valid; eassumption.
Qed.

End Proposal.




(** C6.  In every driver iteration that rejects its proposal (the
    acceptance counter does not grow), the current position, the
    continuity mask and the current result bundle after the iteration are
    those from before it; and, rejected or not, every tensor that existed
    before the iteration holds what it held, the current position among
    them, however the trajectory changed the working and the reference
    state. *)
Theorem np_dhmc_iter_reject `{Backend} {T : Type}
    (run_prog : oracle T) (leapfrog_steps : Z) (eps : num)
    (d : Driver.t T) (w : world) d' w' :
  np_dhmc_iter run_prog leapfrog_steps eps d w = Ok (d', w') ->
  Driver.accept_count d' = Driver.accept_count d ->
  Driver.q d' = Driver.q d /\
  Driver.is_cont d' = Driver.is_cont d /\
  Driver.result d' = Driver.result d /\
  (forall t : tref,
      valid (w_heap w) t -> contents (w_heap w') t = contents (w_heap w) t) /\
  (valid (w_heap w) (Driver.q d) ->
   contents (w_heap w') (Driver.q d') = contents (w_heap w) (Driver.q d)).
Proof.
  intros Hi Hc.
  pose proof (np_dhmc_iter_grows _ _ _ _ _ _ _ Hi) as (G & _).
  apply np_dhmc_iter_inv in Hi
    as (dt & s & s0 & w0 & state & state_0 & result & w1 & a & _ & _ & _ & ->).
  destruct a; simpl in Hc; [lia |]. simpl.
  repeat (split; [reflexivity |]).
  split; intros; eapply grows_contents; eauto.
Qed.

Lemma np_dhmc_iter_reject_witness :
  let d := Driver.mk (TRef 0 1) [true] (fst (Demo.gaussian_1d [] [])) [] 0 in
  let tape := [Fin (1 # 2); Fin 1; Fin 0; Fin (99 # 100)] in
  let w := Demo.world_of tape [[Fin 0]] in
  exists d' w',
    np_dhmc_iter Demo.gaussian_1d 2 (Fin 2) d w = Ok (d', w') /\
    Driver.q d' = Driver.q d /\
    Driver.is_cont d' = Driver.is_cont d /\
    Driver.result d' = Driver.result d /\
    (forall t : tref,
        valid (w_heap w) t -> contents (w_heap w') t = contents (w_heap w) t) /\
    (valid (w_heap w) (Driver.q d) ->
     contents (w_heap w') (Driver.q d') = contents (w_heap w) (Driver.q d)).
Proof.
  intros d tape w. do 2 eexists. split.
  - vm_compute. reflexivity.
  - eapply (np_dhmc_iter_reject Demo.gaussian_1d 2 (Fin 2) d w).
    + vm_compute. reflexivity.
    + reflexivity.
Defined.

Section Accept.

Context `{Backend} {T : Type}.

(** A call that refracts returns when the resizing does and the lengths
    then agree. *)
Lemma coord_integrator_accept (run_prog : oracle T) i eps
    (state state_0 : State.t) (result : ProbRun T) (w : world)
    pi qv nr g1 st st0 w' :
  probe run_prog i eps state w = Some (pi, qv, nr, g1) ->
  reflected result nr pi = false ->
  (if Nat.ltb (len result) (len nr)
   then extend state state_0 nr (len result) (len nr)
   else truncate state state_0 nr (len nr))
    (World _ g1 (write (w_heap w) (State.p state) i (refracted result nr pi))
           (w_log w ++ [EvRunProg qv])) = Ok ((st, st0), w') ->
  lengths_agree (w_heap w') st st0 ->
  coord_integrator run_prog i eps state state_0 result w =
    Ok ((st, st0, nr), w').
Proof.
  unfold probe, reflected, refracted, delta_U. intros Hp Hr Hres Hl.
  destruct (contents (w_heap w) (State.q state) !! i) as [qi |] eqn:Hqi;
    [| discriminate].
  destruct (contents (w_heap w) (State.p state) !! i) as [pi0 |] eqn:Hpi;
    [| discriminate].
  destruct (run_prog _ (w_gen w)) as [r g] eqn:Er.
  injection Hp as -> <- <- <-.
  assert (Hlt : i < length (contents (w_heap w) (State.p state))).
  { apply lookup_lt_Some in Hpi. exact Hpi. }
  unfold coord_integrator.
  rewrite (bind_Ok_intro _ _ w _ w eq_refl).
  unfold Tensor.index at 1. rewrite Hqi.
  rewrite (bind_Ok_intro _ _ w qi w eq_refl).
  rewrite (bind_Ok_intro _ _ w _ w (getitem_intro _ _ _ _ Hpi)).
  unfold shifted in Er.
  unfold bind at 1. unfold call. rewrite Er.
  unfold bind at 1. unfold reflects. unfold reflect_test in Hr.
  apply orb_false_elim in Hr as [Hfin Hle]. rewrite Hfin.
  unfold bind at 1.
  rewrite getitem_intro with (x := pi) by exact Hpi.
  unfold ret at 1. rewrite Hle. unfold bind at 1.
  rewrite getitem_intro with (x := pi) by exact Hpi.
  unfold bind at 1. unfold setitem. simpl.
  apply Nat.ltb_lt in Hlt. rewrite Hlt.
  unfold log_event. simpl.
  rewrite (bind_Ok_intro _ _ _ _ _ Hres). cbv beta iota.
  rewrite (bind_Ok_intro _ _ _ _ _ (check_lengths_intro _ _ _ Hl)).
  reflexivity.
Qed.

End Accept.

(** ** Programs of fixed dimension: the sampler raises no exception *)

Section Totality.

Context `{Backend} {T : Type}.

Variable n : nat.
Variable run_prog : oracle T.
Hypothesis Hfixed : fixed_dimension n run_prog.

Lemma call_shaped qv (w : world) :
  exists r,
    call run_prog qv w =
      Ok (r, World _ (snd (run_prog qv (w_gen w))) (w_heap w)
                   (w_log w ++ [EvRunProg qv])) /\
    well_shaped n r.
Proof.
  exists (fst (run_prog qv (w_gen w))). split; [| apply Hfixed].
  unfold call, log_event. destruct (run_prog qv (w_gen w)). reflexivity.
Qed.

Lemma half_kick_total eps (state : State.t) (r : ProbRun T) (w : world) :
  length (contents (w_heap w) (State.p state)) = n ->
  length (State.is_cont state) = n ->
  length (gradU r) = n ->
  exists v,
    length v = n /\
    half_kick eps state r w =
      Ok (State.mk (State.q state) (TRef (length (w_heap w)) n)
                   (State.is_cont state),
          World _ (w_gen w) (w_heap w ++ [v]) (w_log w)).
Proof.
  intros Lp Lm Lg. unfold half_kick, bind, read, lift, alloc, ret.
  unfold Tensor.mul_mask, Tensor.sub, Tensor.scale.
  rewrite EnergyFacts.bcast2_same_length by (rewrite length_map; lia).
  rewrite EnergyFacts.bcast2_same_length
    by (rewrite length_zip_with, length_map; lia).
  eexists. split; [| rewrite !length_zip_with, length_map;
                     replace (length (contents (w_heap w) (State.p state)) `min`
                                (length (gradU r) `min` length (State.is_cont state)))
                       with n by lia; reflexivity].
  rewrite !length_zip_with, length_map. lia.
Qed.

Lemma half_drift_total eps (state : State.t) (w : world) :
  length (contents (w_heap w) (State.q state)) = n ->
  length (contents (w_heap w) (State.p state)) = n ->
  length (State.is_cont state) = n ->
  exists v,
    length v = n /\
    half_drift eps state w =
      Ok (State.mk (TRef (length (w_heap w)) n) (State.p state)
                   (State.is_cont state),
          World _ (w_gen w) (w_heap w ++ [v]) (w_log w)).
Proof.
  intros Lq Lp Lm. unfold half_drift, bind, read, lift, alloc, ret.
  unfold Tensor.mul_mask, Tensor.add, Tensor.scale.
  rewrite EnergyFacts.bcast2_same_length by (rewrite length_map; lia).
  rewrite EnergyFacts.bcast2_same_length
    by (rewrite length_zip_with, length_map; lia).
  eexists. split; [| rewrite !length_zip_with, length_map;
                     replace (length (contents (w_heap w) (State.q state)) `min`
                                (length (contents (w_heap w) (State.p state)) `min`
                                 length (State.is_cont state)))
                       with n by lia; reflexivity].
  rewrite !length_zip_with, length_map. lia.
Qed.

Lemma probe_total i eps (state : State.t) (w : world) :
  i < n ->
  length (contents (w_heap w) (State.q state)) = n ->
  length (contents (w_heap w) (State.p state)) = n ->
  exists pi qv nr g1,
    probe run_prog i eps state w = Some (pi, qv, nr, g1) /\ well_shaped n nr.
Proof.
  intros Hi Lq Lp. unfold probe.
  destruct (lookup_lt_is_Some_2 (contents (w_heap w) (State.q state)) i
              ltac:(lia)) as [qi Hqi].
  destruct (lookup_lt_is_Some_2 (contents (w_heap w) (State.p state)) i
              ltac:(lia)) as [pi Hpi].
  rewrite Hqi, Hpi.
  pose proof (Hfixed (shifted (contents (w_heap w) (State.q state)) i eps qi pi)
                (w_gen w)) as Hs.
  destruct (run_prog _ (w_gen w)) as [r g]. simpl in Hs.
  do 4 eexists. split; [reflexivity | exact Hs].
Qed.

(** A call of the coordinate integrator returns and keeps the dimension. *)
Lemma coord_integrator_total i eps (state state_0 : State.t)
    (result : ProbRun T) (w : world) :
  i < n -> shaped n (w_heap w) state state_0 -> len result = n ->
  exists st st0 r w',
    coord_integrator run_prog i eps state state_0 result w =
      Ok ((st, st0, r), w') /\
    shaped n (w_heap w') st st0 /\ len r = n.
Proof.
  intros Hi (Lq & Lp & Lm & Lp0 & Lm0 & Vq & Vp & Vp0) Lr.
  destruct (probe_total i eps state w Hi Lq Lp)
    as (pi & qv & nr & g1 & Hp & (Ln & Ls & Lc & Lg)).
  destruct (reflected result nr pi) eqn:Hr.
  - do 4 eexists. split;
      [eapply coord_integrator_reflect; eassumption |].
    simpl. split; [| exact Lr].
    unfold shaped. rewrite !HeapFacts.length_contents_write.
    repeat split; try assumption; apply HeapFacts.valid_write; assumption.
  - set (h2 := write (w_heap w) (State.p state) i (refracted result nr pi)).
    assert (Hres : (if Nat.ltb (len result) (len nr)
                    then extend state state_0 nr (len result) (len nr)
                    else truncate state state_0 nr (len nr))
                     (World _ g1 h2 (w_log w ++ [EvRunProg qv])) =
                   Ok ((State.mk (TRef (length h2) (length (take n (samples nr))))
                                 (view (State.p state) n) (take n (is_cont nr)),
                        State.mk (State.q state_0) (view (State.p state_0) n)
                                 (take n (State.is_cont state_0))),
                       World _ g1 (h2 ++ [take n (samples nr)])
                             (w_log w ++ [EvRunProg qv]))).
    { rewrite Lr, Ln, Nat.ltb_irrefl. apply truncate_eq. }
    assert (Vp2 : valid h2 (State.p state))
      by (apply HeapFacts.valid_write; exact Vp).
    assert (Vp02 : valid h2 (State.p state_0))
      by (apply HeapFacts.valid_write; exact Vp0).
    assert (Lp2 : length (contents h2 (State.p state)) = n)
      by (unfold h2; rewrite HeapFacts.length_contents_write; exact Lp).
    assert (Lp02 : length (contents h2 (State.p state_0)) = n)
      by (unfold h2; rewrite HeapFacts.length_contents_write; exact Lp0).
    assert (Hshaped :
              shaped n (h2 ++ [take n (samples nr)])
                (State.mk (TRef (length h2) (length (take n (samples nr))))
                          (view (State.p state) n) (take n (is_cont nr)))
                (State.mk (State.q state_0) (view (State.p state_0) n)
                          (take n (State.is_cont state_0)))).
    { unfold shaped. simpl.
      rewrite HeapFacts.contents_alloc_new.
      rewrite !HeapFacts.contents_view.
      rewrite !contents_app_old by assumption.
      rewrite !length_take.
      repeat split; try lia.
      - unfold valid. simpl. rewrite length_app. simpl. lia.
      - apply HeapFacts.valid_alloc. exact Vp2.
      - apply HeapFacts.valid_alloc. exact Vp02. }
    do 4 eexists. split.
    + eapply coord_integrator_accept; [exact Hp | exact Hr | exact Hres |].
      destruct Hshaped as (S1 & S2 & S3 & S4 & S5 & _).
      unfold lengths_agree. simpl in *. lia.
    + split; [exact Hshaped | exact Ln].
Qed.

(** So does the sweep, over any list of indices: line 170 skips those
    outside the position. *)
Lemma sweep_total eps : forall js (state state_0 : State.t)
    (result : ProbRun T) (w : world),
  shaped n (w_heap w) state state_0 -> len result = n ->
  exists st st0 r w',
    sweep run_prog eps js state state_0 result w = Ok ((st, st0, r), w') /\
    shaped n (w_heap w') st st0 /\ len r = n.
Proof.
  induction js as [| j js IH]; intros state state_0 result w Hs Lr.
  - do 4 eexists. split; [reflexivity | auto].
  - simpl. unfold bind at 1. unfold tensor_len.
    destruct Hs as (Lq & Hs'). rewrite Lq.
    destruct (Nat.leb_spec n j) as [Hge | Hlt].
    + apply IH; [split; assumption | exact Lr].
    + destruct (coord_integrator_total j eps state state_0 result w Hlt
                  (conj Lq Hs') Lr)
        as (s1 & s2 & r1 & w1 & Hci & Hs1 & Lr1).
      rewrite (bind_Ok_intro _ _ _ _ _ Hci). cbv beta iota.
      apply IH; assumption.
Qed.

Hypothesis Hperm : randperm_in_range.

Lemma index_select_total {A : Type} (l : list A) : forall idx,
  Forall (fun k => k < length l) idx ->
  exists xs, Tensor.index_select l idx = Ok xs.
Proof.
  induction idx as [| k idx IH]; intros Hall.
  - exists []. reflexivity.
  - inversion Hall as [| ? ? Hk Hrest]; subst. simpl.
    destruct (lookup_lt_is_Some_2 l k Hk) as [x Hx].
    unfold Tensor.index. rewrite Hx.
    destruct (IH Hrest) as (xs & ->). eexists. reflexivity.
Qed.

(** A leapfrog step returns and keeps the dimension. *)
Lemma integrator_step_total eps (state state_0 : State.t) (w : world) :
  shaped n (w_heap w) state state_0 ->
  exists st st0 r w',
    integrator_step run_prog eps state state_0 w = Ok ((st, st0, r), w') /\
    shaped n (w_heap w') st st0.
Proof.
  intros (Lq & Lp & Lm & Lp0 & Lm0 & Vq & Vp & Vp0).
  unfold integrator_step.
  rewrite (bind_Ok_intro _ _ w _ w eq_refl).
  destruct (call_shaped (contents (w_heap w) (State.q state)) w)
    as (r1 & Hc1 & (_ & _ & _ & Lg1)).
  rewrite (bind_Ok_intro _ _ _ _ _ Hc1).
  destruct (half_kick_total eps state r1
              (World _ (snd (run_prog (contents (w_heap w) (State.q state))
                                      (w_gen w)))
                     (w_heap w)
                     (w_log w ++ [EvRunProg (contents (w_heap w) (State.q state))]))
              Lp Lm Lg1) as (v1 & Lv1 & Hk1).
  rewrite (bind_Ok_intro _ _ _ _ _ Hk1). cbv beta iota. simpl w_heap. simpl w_gen. simpl w_log.
  match goal with
  | |- context [bind (half_drift eps ?s) _ ?w0] =>
      destruct (half_drift_total eps s w0) as (v2 & Lv2 & Hd2)
  end.
  { simpl. rewrite contents_app_old by exact Vq. exact Lq. }
  { simpl. rewrite HeapFacts.contents_alloc_new'. exact Lv1. exact Lv1. }
  { exact Lm. }
  rewrite (bind_Ok_intro _ _ _ _ _ Hd2). cbv beta iota. simpl w_heap. simpl w_gen. simpl w_log.
  cbv beta.
  match goal with
  | |- context [bind (read ?t) _ ?w0] =>
      rewrite (bind_Ok_intro (read t) _ w0 _ w0 eq_refl)
  end.
  match goal with
  | |- context [bind (call run_prog ?qv) _ ?w0] =>
      destruct (call_shaped qv w0) as (r2 & Hc2 & (Lr2 & _))
  end.
  rewrite (bind_Ok_intro _ _ _ _ _ Hc2). cbv beta iota. simpl w_heap. simpl w_gen. simpl w_log.
  cbv zeta. unfold bind at 1. unfold draw_randperm. simpl w_gen.
  match goal with
  | |- context [randperm ?m ?g] =>
      pose proof (Hperm m g) as Hin; destruct (randperm m g) as [perm g5]
  end.
  simpl in Hin.
  destruct (index_select_total _ _ Hin) as (js & Hjs).
  simpl State.is_cont in *. rewrite Hjs.
  rewrite (bind_Ok_intro (lift (Ok js)) _ _ js _ eq_refl).
  match goal with
  | |- context [bind (sweep run_prog eps js ?s ?s0 r2) _ ?w0] =>
      destruct (sweep_total eps js s s0 r2 w0)
        as (s3 & s4 & r3 & w6 & Hsw & Hs6 & Lr3)
  end.
  { unfold shaped. simpl.
    rewrite HeapFacts.contents_alloc_new' by exact Lv2.
    rewrite (contents_app_old _ [v2])
      by (unfold valid; simpl; rewrite length_app; simpl; lia).
    rewrite HeapFacts.contents_alloc_new' by exact Lv1.
    rewrite <- app_assoc.
    rewrite contents_app_old by exact Vp0.
    repeat split; try assumption.
    - unfold valid. simpl. rewrite !length_app. simpl. lia.
    - unfold valid. simpl. rewrite !length_app. simpl. lia.
    - unfold valid in *. rewrite !length_app. simpl. lia. }
  { exact Lr2. }
  rewrite (bind_Ok_intro _ _ _ _ _ Hsw). cbv beta iota.
  destruct Hs6 as (L6q & L6p & L6m & L6p0 & L6m0 & V6q & V6p & V6p0).
  destruct (half_drift_total eps s3 w6 L6q L6p L6m) as (v7 & Lv7 & Hd7).
  rewrite (bind_Ok_intro _ _ _ _ _ Hd7). cbv beta iota. simpl w_heap. simpl w_gen. simpl w_log.
  cbv beta.
  match goal with
  | |- context [bind (read ?t) _ ?w0] =>
      rewrite (bind_Ok_intro (read t) _ w0 _ w0 eq_refl)
  end.
  match goal with
  | |- context [bind (call run_prog ?qv) _ ?w0] =>
      destruct (call_shaped qv w0) as (r8 & Hc8 & (_ & _ & _ & Lg8))
  end.
  rewrite (bind_Ok_intro _ _ _ _ _ Hc8). cbv beta iota. simpl w_heap. simpl w_gen. simpl w_log.
  match goal with
  | |- context [bind (half_kick eps ?s r8) _ ?w0] =>
      destruct (half_kick_total eps s r8 w0) as (v9 & Lv9 & Hk9)
  end.
  { simpl. rewrite contents_app_old by exact V6p. exact L6p. }
  { exact L6m. }
  { exact Lg8. }
  rewrite (bind_Ok_intro _ _ _ _ _ Hk9). simpl.
  do 4 eexists. split; [reflexivity |].
  unfold shaped. simpl.
  rewrite HeapFacts.contents_alloc_new' by exact Lv9.
  rewrite (contents_app_old _ [v9])
    by (unfold valid; simpl; rewrite length_app; simpl; lia).
  rewrite HeapFacts.contents_alloc_new' by exact Lv7.
  rewrite <- app_assoc. rewrite contents_app_old by exact V6p0.
  repeat split; try assumption.
  - unfold valid. simpl. rewrite !length_app. simpl. lia.
  - unfold valid. simpl. rewrite !length_app. simpl. lia.
  - unfold valid in *. rewrite !length_app. simpl. lia.
Qed.

Lemma leapfrog_total dt : forall k (s s0 : State.t) (r : ProbRun T) (w : world),
  shaped n (w_heap w) s s0 ->
  exists state state_0 result w1,
    leapfrog run_prog k dt s s0 r w = Ok ((state, state_0, result), w1) /\
    shaped n (w_heap w1) state state_0.
Proof.
  induction k as [| k IH]; intros s s0 r w Hs.
  - do 4 eexists. split; [reflexivity | exact Hs].
  - simpl. destruct (negb (Num.isfinite (log_weight r))).
    + do 4 eexists. split; [reflexivity | exact Hs].
    + destruct (integrator_step_total dt s s0 w Hs)
        as (s1 & s2 & r1 & w1 & Hstep & Hs1).
      rewrite (bind_Ok_intro _ _ _ _ _ Hstep). cbv beta iota.
      apply IH. exact Hs1.
Qed.

Lemma padding_total gauss laplace mask :
  length gauss = length mask -> length laplace = length mask ->
  exists pv, padding gauss laplace mask = Ok pv /\ length pv = length mask.
Proof.
  intros Eg El. unfold padding, Tensor.mul_mask, Tensor.add.
  rewrite (EnergyFacts.bcast2_same_length _ _ _ Eg).
  rewrite EnergyFacts.bcast2_same_length by (rewrite length_map; exact El).
  rewrite EnergyFacts.bcast2_same_length
    by (rewrite !length_zip_with, length_map; lia).
  eexists. split; [reflexivity |].
  rewrite !length_zip_with, length_map. lia.
Qed.

Lemma propose_total eps (d : Driver.t T) (w : world) :
  driver_shaped n (w_heap w) d ->
  exists dt s s0 w0,
    propose eps (Driver.q d) (Driver.is_cont d) w = Ok ((dt, s, s0), w0) /\
    shaped n (w_heap w0) s s0 /\ grows (length (w_heap w)) w w0.
Proof.
  intros (Lq & Lm & Vq). unfold propose.
  unfold bind at 1. unfold tensor_len. rewrite Lq.
  unfold bind at 1. unfold draw_rand.
  destruct (rand (w_gen w)) as [u g0]. simpl.
  unfold bind at 1. unfold sample_normal. simpl.
  pose proof (draw_n_length normal1 n g0) as Lg.
  destruct (draw_n normal1 n g0) as [g g1]. simpl in Lg.
  unfold bind at 1. unfold Tensor.mul_mask.
  rewrite EnergyFacts.bcast2_same_length by lia. simpl.
  unfold bind at 1. unfold sample_laplace. simpl.
  pose proof (draw_n_length laplace1 n g1) as Ll.
  destruct (draw_n laplace1 n g1) as [l g2]. simpl in Ll.
  unfold bind at 1.
  rewrite EnergyFacts.bcast2_same_length by (rewrite length_map; lia). simpl.
  unfold bind at 1. unfold Tensor.add.
  rewrite EnergyFacts.bcast2_same_length
    by (rewrite !length_zip_with, length_map; lia).
  simpl. unfold bind, alloc, ret, log_event. simpl.
  do 4 eexists. split; [reflexivity |]. split.
  - unfold shaped. simpl.
    rewrite HeapFacts.contents_alloc_new.
    rewrite contents_app_old by exact Vq.
    rewrite !length_zip_with, length_map.
    repeat split; try lia.
    + apply HeapFacts.valid_alloc. exact Vq.
    + unfold valid. simpl. rewrite length_app. simpl. lia.
    + unfold valid. simpl. rewrite length_app. simpl. lia.
  - unfold grows. simpl. rewrite length_app. simpl.
    split; [lia |]. split; [apply take_app_le; lia |].
    eexists. rewrite <- !app_assoc. reflexivity.
Qed.

(** An iteration returns and keeps the dimension of the driver's
    variables. *)
Lemma np_dhmc_iter_total leapfrog_steps eps (d : Driver.t T) (w : world) :
  driver_shaped n (w_heap w) d ->
  exists d' w',
    np_dhmc_iter run_prog leapfrog_steps eps d w = Ok (d', w') /\
    driver_shaped n (w_heap w') d'.
Proof.
  intros Hd.
  destruct (propose_total eps d w Hd) as (dt & s & s0 & w0 & Hp & Hs & G0).
  destruct (leapfrog_total dt (Z.to_nat leapfrog_steps) s s0 (Driver.result d)
              w0 Hs)
    as (state & state_0 & result & w1 & Hl & Hs1).
  pose proof Hs1 as (L1q & L1p & L1m & L1p0 & L1m0 & V1q & V1p & V1p0).
  destruct (accepts_total state state_0 (Driver.result d) result w1
              ltac:(lia) ltac:(lia)) as (a & w' & Ha).
  exists (if a
          then Driver.mk (State.q state) (State.is_cont state) result
                 (Driver.final_samples d ++ [value result])
                 (S (Driver.accept_count d))
          else Driver.mk (Driver.q d) (Driver.is_cont d) (Driver.result d)
                 (Driver.final_samples d ++ [value (Driver.result d)])
                 (Driver.accept_count d)), w'.
  split; [eapply np_dhmc_iter_intro; eassumption |].
  pose proof (accepts_world _ _ _ _ _ _ _ Ha) as (Eh & _).
  destruct a; unfold driver_shaped; simpl; rewrite Eh.
  - auto.
  - destruct Hd as (Lq & Lm & Vq).
    eapply (leapfrog_grows (length (w_heap w))) in Hl as (G1 & _);
      [| eapply grows_length; [exact G0 | lia]].
    pose proof (grows_trans _ _ _ _ G0 G1) as G.
    rewrite (grows_contents _ _ _ _ G) by exact Vq.
    split; [exact Lq |]. split; [exact Lm |].
    eapply grows_valid; eassumption.
Qed.

Lemma np_dhmc_loop_total leapfrog_steps eps : forall k (d : Driver.t T)
    (w : world),
  driver_shaped n (w_heap w) d ->
  exists d' w',
    np_dhmc_loop run_prog k leapfrog_steps eps d w = Ok (d', w').
Proof.
  induction k as [| k IH]; intros d w Hd.
  - do 2 eexists. reflexivity.
  - simpl.
    destruct (np_dhmc_iter_total leapfrog_steps eps d w Hd)
      as (d1 & w1 & Hi & Hd1).
    rewrite (bind_Ok_intro _ _ _ _ _ Hi). apply IH. exact Hd1.
Qed.

Lemma np_dhmc_init_total (w : world) :
  exists d0 w0,
    np_dhmc_init run_prog w = Ok (d0, w0) /\ driver_shaped n (w_heap w0) d0.
Proof.
  unfold np_dhmc_init.
  destruct (call_shaped [] w) as (r & Hc & (_ & Ls & Lc & _)).
  rewrite (bind_Ok_intro _ _ _ _ _ Hc).
  unfold bind, alloc, ret. simpl.
  do 2 eexists. split; [reflexivity |].
  unfold driver_shaped. simpl.
  rewrite HeapFacts.contents_alloc_new.
  repeat split; try assumption.
  unfold valid. simpl. rewrite length_app. simpl. lia.
Qed.

End Totality.

(** ** C5: the samples of a run *)

Section Samples.

Context `{Backend} {T : Type}.

Lemma np_dhmc_iter_sample (run_prog : oracle T) leapfrog_steps eps
    (d : Driver.t T) (w : world) d' w' :
  np_dhmc_iter run_prog leapfrog_steps eps d w = Ok (d', w') ->
  Driver.final_samples d' =
    Driver.final_samples d ++ [value (Driver.result d')] /\
  (Driver.accept_count d' = Driver.accept_count d ->
   Driver.result d' = Driver.result d).
Proof.
  intros Hi.
  apply np_dhmc_iter_inv in Hi
    as (dt & s & s0 & w0 & state & state_0 & result & w1 & a & _ & _ & _ & ->).
  destruct a; simpl; split; auto. lia.
Qed.

Lemma np_dhmc_loop_samples (run_prog : oracle T) leapfrog_steps eps :
  forall k (d : Driver.t T) (w : world) d' w',
  np_dhmc_loop run_prog k leapfrog_steps eps d w = Ok (d', w') ->
  exists new,
    Driver.final_samples d' = Driver.final_samples d ++ new /\
    length new = k.
Proof.
  induction k as [| k IH]; intros d w d' w' Hl.
  - simpl in Hl. apply ret_Ok in Hl as [-> ->].
    exists []. rewrite app_nil_r. split; reflexivity.
  - simpl in Hl. apply bind_Ok in Hl as (d1 & w1 & Hi & Hl).
    apply np_dhmc_iter_sample in Hi as [E1 _].
    apply IH in Hl as (new & E2 & Ln).
    exists (value (Driver.result d1) :: new).
    rewrite E2, E1, <- app_assoc. simpl. split; [reflexivity | lia].
Qed.

Lemma np_dhmc_inv (run_prog : oracle T) count leapfrog_steps eps burnin
    (w : world) out w' :
  np_dhmc run_prog count leapfrog_steps eps burnin w = Ok (out, w') ->
  let b := match burnin with None => (count / 10)%Z | Some b => b end in
  exists d0 w0 d1 w1,
    np_dhmc_init run_prog w = Ok (d0, w0) /\
    Driver.final_samples d0 = [] /\
    np_dhmc_loop run_prog (Z.to_nat (count + b)) leapfrog_steps eps d0 w0 =
      Ok (d1, w1) /\
    length (Driver.final_samples d1) <> 0 /\
    out = Tensor.py_slice_from b (Driver.final_samples d1).
Proof.
  unfold np_dhmc. intros Hn. cbv zeta.
  apply bind_Ok in Hn as (d0 & w0 & Hinit & Hn).
  apply bind_Ok in Hn as (d1 & w1 & Hloop & Hn).
  apply bind_Ok in Hn as ([] & w2 & Hprint & Hn).
  apply ret_Ok in Hn as [-> ->].
  exists d0, w0, d1, w1. split; [exact Hinit |]. split.
  - unfold np_dhmc_init in Hinit.
    apply bind_Ok in Hinit as (r & w3 & _ & Hinit).
    apply bind_Ok in Hinit as (q0 & w4 & _ & Hinit).
    apply ret_Ok in Hinit as [-> _]. reflexivity.
  - split; [exact Hloop |]. split; [| reflexivity].
    unfold print_ratio in Hprint.
    destruct (Nat.eqb_spec (length (Driver.final_samples d1)) 0);
      [discriminate | assumption].
Qed.

End Samples.

(** C5 (as amended).  For every [count >= 0] and [burnin >= 0] ([burnin]
    being [count // 10] when omitted): a run of the driver that completes
    has made [count + burnin] iterations and returns the per-iteration
    sample sequence without its first [burnin] entries, [count] samples in
    all; every iteration appends exactly one sample, the value of the
    current result bundle, which on a rejection is the bundle of before;
    and for a program of fixed dimension (the permutations being in
    range) the run completes whenever [count + burnin > 0]. *)
Theorem np_dhmc_samples `{Backend} {T : Type}
    (run_prog : oracle T) (count leapfrog_steps : Z) (eps : num)
    (burnin : option Z) :
  let b := match burnin with None => (count / 10)%Z | Some b => b end in
  (0 <= count)%Z -> (0 <= b)%Z ->
  (forall (w : world) out w',
      np_dhmc run_prog count leapfrog_steps eps burnin w = Ok (out, w') ->
      exists d0 w0 d1 w1,
        np_dhmc_init run_prog w = Ok (d0, w0) /\
        np_dhmc_loop run_prog (Z.to_nat (count + b)) leapfrog_steps eps d0 w0 =
          Ok (d1, w1) /\
        length (Driver.final_samples d1) = Z.to_nat (count + b) /\
        out = drop (Z.to_nat b) (Driver.final_samples d1) /\
        Z.of_nat (length out) = count) /\
  (forall (d : Driver.t T) (w : world) d' w',
      np_dhmc_iter run_prog leapfrog_steps eps d w = Ok (d', w') ->
      Driver.final_samples d' =
        Driver.final_samples d ++ [value (Driver.result d')] /\
      (Driver.accept_count d' = Driver.accept_count d ->
       Driver.result d' = Driver.result d)) /\
  (forall n (w : world),
      fixed_dimension n run_prog -> randperm_in_range ->
      (0 < count + b)%Z ->
      exists out w',
        np_dhmc run_prog count leapfrog_steps eps burnin w = Ok (out, w')).
Proof.
  intros b Hcount Hb. split; [| split].
  - intros w out w' Hrun.
    apply np_dhmc_inv in Hrun
      as (d0 & w0 & d1 & w1 & Hinit & E0 & Hloop & _ & ->).
    fold b in Hloop |- *.
    pose proof (np_dhmc_loop_samples _ _ _ _ _ _ _ _ Hloop) as (new & E & Ln).
    rewrite E0 in E. simpl in E.
    exists d0, w0, d1, w1.
    split; [exact Hinit |]. split; [exact Hloop |].
    assert (Ll : length (Driver.final_samples d1) = Z.to_nat (count + b))
      by (rewrite E; exact Ln).
    split; [exact Ll |].
    unfold Tensor.py_slice_from.
    destruct (Z.ltb_spec b 0) as [Hneg | _]; [lia |].
    rewrite Ll.
    replace (Z.to_nat (Z.min b (Z.of_nat (Z.to_nat (count + b)))))
      with (Z.to_nat b) by lia.
    split; [reflexivity |].
    rewrite length_drop, Ll. lia.
  - intros d w d' w'. apply np_dhmc_iter_sample.
  - intros n w Hfixed Hperm Hpos.
    unfold np_dhmc.
    destruct (np_dhmc_init_total n run_prog Hfixed w) as (d0 & w0 & Hinit & Hd0).
    rewrite (bind_Ok_intro _ _ _ _ _ Hinit).
    fold b.
    destruct (np_dhmc_loop_total n run_prog Hfixed Hperm leapfrog_steps eps
                (Z.to_nat (count + b)) d0 w0 Hd0) as (d1 & w1 & Hloop).
    rewrite (bind_Ok_intro _ _ _ _ _ Hloop).
    pose proof (np_dhmc_loop_samples _ _ _ _ _ _ _ _ Hloop) as (new & E & Ln).
    unfold bind, print_ratio.
    destruct (Nat.eqb_spec (length (Driver.final_samples d1)) 0) as [E0 | _].
    + rewrite E, length_app, Ln in E0. lia.
    + do 2 eexists. reflexivity.
Qed.

Lemma gaussian_1d_fixed : fixed_dimension 1 Demo.gaussian_1d.
Proof. intros qv g. unfold well_shaped. simpl. auto. Qed.

Lemma tape_randperm_in_range : @randperm_in_range Demo.tape.
Proof.
  intros n g. simpl. apply Forall_forall. intros k Hk.
  apply list_elem_of_In in Hk. apply in_rev, in_seq in Hk. lia.
Qed.

Lemma np_dhmc_samples_witness :
  exists out w',
    np_dhmc Demo.gaussian_1d 3 2 (Fin (1 # 5)) (Some 1%Z)
            (Demo.start [Fin (1 # 2); Fin 1; Fin 0; Fin (1 # 3)]) =
      Ok (out, w') /\
    Z.of_nat (length out) = 3%Z.
Proof.
  destruct (np_dhmc_samples Demo.gaussian_1d 3 2 (Fin (1 # 5)) (Some 1%Z)
              ltac:(lia) ltac:(lia)) as (Hdone & _ & Hruns).
  destruct (Hruns 1 (Demo.start [Fin (1 # 2); Fin 1; Fin 0; Fin (1 # 3)])
              gaussian_1d_fixed tape_randperm_in_range ltac:(lia))
    as (out & w' & Hrun).
  exists out, w'. split; [exact Hrun |].
  destruct (Hdone _ _ _ Hrun) as (d0 & w0 & d1 & w1 & _ & _ & _ & _ & Hlen).
  exact Hlen.
Defined.

(** The claim as stated fails for [count = 0] with [burnin] omitted: no
    iteration is made, [len(final_samples)] is [0], and line 237 divides
    by it. *)
Lemma np_dhmc_zero_count :
  ~ (forall (run_prog : oracle Q) (count leapfrog_steps : Z) (eps : num)
            (burnin : option Z) (w : @world Demo.tape),
        exists out w',
          np_dhmc run_prog count leapfrog_steps eps burnin w = Ok (out, w') /\
          Z.of_nat (length out) = count).
Proof.
  intros Hall.
  destruct (Hall Demo.gaussian_1d 0%Z 2%Z (Fin (1 # 5)) None (Demo.start []))
    as (out & w' & Hrun & _).
  vm_compute in Hrun. discriminate Hrun.
Qed.

(** ** Further properties of the driver *)

Section DriverFacts.

Context `{Backend} {T : Type}.

Lemma np_dhmc_init_eq (run_prog : oracle T) (w : world) :
  np_dhmc_init run_prog w =
    Ok (Driver.mk (TRef (length (w_heap w))
                        (length (samples (fst (run_prog [] (w_gen w))))))
                  (is_cont (fst (run_prog [] (w_gen w))))
                  (fst (run_prog [] (w_gen w))) [] 0,
        World _ (snd (run_prog [] (w_gen w)))
              (w_heap w ++ [samples (fst (run_prog [] (w_gen w)))])
              (w_log w ++ [EvRunProg []])).
Proof.
  unfold np_dhmc_init, bind, call, alloc, ret, log_event.
  destruct (run_prog [] (w_gen w)) as [r g]. reflexivity.
Qed.



End DriverFacts.

(** X1.  When [count + burnin <= 0] the loop of the driver has no
    iteration, no sample is recorded, and the division of line 237
    raises [ZeroDivisionError], whatever the program. *)
Theorem np_dhmc_no_iteration `{Backend} {T : Type}
    (run_prog : oracle T) (count leapfrog_steps : Z) (eps : num)
    (burnin : option Z) (w : world) :
  (count + match burnin with None => count / 10 | Some b => b end <= 0)%Z ->
  np_dhmc run_prog count leapfrog_steps eps burnin w = Raise ZeroDivisionError.
Proof.
  intros Hle. unfold np_dhmc.
  rewrite (bind_Ok_intro _ _ _ _ _ (np_dhmc_init_eq run_prog w)).
  replace (Z.to_nat _) with 0 by lia. simpl.
  unfold bind, ret, print_ratio. simpl. reflexivity.
Qed.

Lemma np_dhmc_no_iteration_witness :
  np_dhmc Demo.gaussian_1d (-5) 2 (Fin (1 # 5)) (Some 3%Z) (Demo.start []) =
    Raise ZeroDivisionError.
Proof.
  apply (np_dhmc_no_iteration Demo.gaussian_1d (-5) 2 (Fin (1 # 5)) (Some 3%Z)).
  lia.
Defined.





Section Stuck.

Context `{Backend} {T : Type}.

Lemma leapfrog_at_barrier (run_prog : oracle T) k dt (s s0 : State.t)
    (r : ProbRun T) (w : world) :
  Num.isfinite (log_weight r) = false ->
  leapfrog run_prog k dt s s0 r w = Ok ((s, s0, r), w).
Proof.
  intros Hf. destruct k; simpl; [reflexivity |]. rewrite Hf. reflexivity.
Qed.

(** With the same state on both sides and the same non-finite potential
    at both ends, the test rejects. *)
Lemma accepts_at_barrier (s : State.t) (r : ProbRun T) (w : world) a w' :
  Num.isfinite (log_weight r) = false ->
  accepts s s r r w = Ok (a, w') -> a = false.
Proof.
  intros Hf (K_0 & K & HK0 & HK & Ha)%accepts_Ok. cbv zeta in Ha.
  rewrite HK0 in HK. injection HK as <-.
  destruct (log_weight r) as [| | | x]; try discriminate; simpl in Ha.
  - destruct Ha as [-> _].
    destruct (fst (rand (w_gen w))); reflexivity.
  - destruct Ha as [-> _].
    destruct K_0; simpl; destruct (fst (rand (w_gen w))); reflexivity.
  - destruct Ha as [-> _]. reflexivity.
Qed.

Lemma np_dhmc_iter_stuck (run_prog : oracle T) leapfrog_steps eps
    (d : Driver.t T) (w : world) d' w' :
  np_dhmc_iter run_prog leapfrog_steps eps d w = Ok (d', w') ->
  Num.isfinite (log_weight (Driver.result d)) = false ->
  d' = Driver.mk (Driver.q d) (Driver.is_cont d) (Driver.result d)
         (Driver.final_samples d ++ [value (Driver.result d)])
         (Driver.accept_count d) /\
  w_log w' =
    w_log w ++
    [EvRand; EvNormal (length (contents (w_heap w) (Driver.q d)));
     EvLaplace (length (contents (w_heap w) (Driver.q d)))] ++
    (if Num.ne_inf (Num.neg (log_weight (Driver.result d))) then [EvRand]
     else []).
Proof.
  intros Hi Hf.
  apply np_dhmc_iter_inv in Hi
    as (dt & s & s0 & w0 & state & state_0 & result & w1 & a &
        Hprop & Hleap & Hacc & ->).
  rewrite leapfrog_at_barrier in Hleap by exact Hf.
  injection Hleap as <- <- <- <-.
  apply propose_Ok in Hprop as (pv & _ & _ & Es & -> & ->).
  pose proof (accepts_at_barrier _ _ _ _ _ Hf Hacc) as ->.
  split; [reflexivity |].
  apply accepts_world in Hacc as (_ & ->). simpl.
  rewrite <- app_assoc. reflexivity.
Qed.

Lemma np_dhmc_loop_stuck (run_prog : oracle T) leapfrog_steps eps :
  forall k (d : Driver.t T) (w : world) d' w',
  np_dhmc_loop run_prog k leapfrog_steps eps d w = Ok (d', w') ->
  Num.isfinite (log_weight (Driver.result d)) = false ->
  Driver.final_samples d' =
    Driver.final_samples d ++ repeat (value (Driver.result d)) k /\
  Driver.accept_count d' = Driver.accept_count d.
Proof.
  induction k as [| k IH]; intros d w d' w' Hl Hf.
  - simpl in Hl. apply ret_Ok in Hl as [-> ->].
    simpl. rewrite app_nil_r. auto.
  - simpl in Hl. apply bind_Ok in Hl as (d1 & w1 & Hi & Hl).
    apply np_dhmc_iter_stuck in Hi as [-> _]; [| exact Hf].
    apply IH in Hl as [E Ec]; [| exact Hf]. simpl in E, Ec.
    rewrite E, Ec, <- app_assoc. auto.
Qed.

End Stuck.

(** X4.  A run that starts where the log-weight is not finite never
    leaves: every iteration is rejected, so every returned sample is the
    value of the first run of the program and the printed number of
    accepted proposals is [0]. *)
Theorem np_dhmc_stuck `{Backend} {T : Type}
    (run_prog : oracle T) (count leapfrog_steps : Z) (eps : num)
    (burnin : option Z) (w : world) out w' :
  Num.isfinite (log_weight (fst (run_prog [] (w_gen w)))) = false ->
  np_dhmc run_prog count leapfrog_steps eps burnin w = Ok (out, w') ->
  Forall (fun v => v = value (fst (run_prog [] (w_gen w)))) out /\
  exists iterations, last (w_log w') = Some (EvPrint 0 iterations).
Proof.
  intros Hf Hrun. unfold np_dhmc in Hrun.
  apply bind_Ok in Hrun as (d0 & w0 & Hinit & Hrun).
  apply bind_Ok in Hrun as (d1 & w1 & Hloop & Hrun).
  apply bind_Ok in Hrun as ([] & w2 & Hprint & Hrun).
  apply ret_Ok in Hrun as [-> ->].
  rewrite np_dhmc_init_eq in Hinit. injection Hinit as <- <-.
  apply np_dhmc_loop_stuck in Hloop as [E Ec]; [| exact Hf].
  simpl in E, Ec. split.
  - unfold Tensor.py_slice_from. rewrite E.
    apply Forall_drop, Forall_forall. intros v Hv.
    apply list_elem_of_In, repeat_spec in Hv. exact Hv.
  - unfold print_ratio, log_event in Hprint.
    destruct (Nat.eqb _ 0); [discriminate |].
    injection Hprint as <-. simpl.
    eexists. rewrite last_snoc, Ec. reflexivity.
Qed.

Lemma np_dhmc_stuck_witness :
  let barrier : oracle nat :=
    fun qv g => (MkProbRun NInf [Fin 0] [Fin 0] [true] 1 7, g) in
  exists out w',
    np_dhmc barrier 3 2 (Fin (1 # 5)) None (Demo.start []) = Ok (out, w') /\
    Forall (fun v => v = 7) out /\
    exists iterations, last (w_log w') = Some (EvPrint 0 iterations).
Proof.
  intros barrier.
  assert (Hrun : exists out w',
             np_dhmc barrier 3 2 (Fin (1 # 5)) None (Demo.start []) =
             Ok (out, w'))
    by (do 2 eexists; vm_compute; reflexivity).
  destruct Hrun as (out & w' & Hrun).
  exists out, w'. split; [exact Hrun |].
  apply (np_dhmc_stuck barrier 3 2 (Fin (1 # 5)) None (Demo.start []) out w'
           eq_refl Hrun).
Defined.

(** ** The kinetic energy and non-finite momenta *)

Module EnergyFinite.

Import NumFacts EnergyFacts.






(** An entry that is not finite puts a NaN into one of the two masked
    vectors: into both when it is a NaN, into the one whose mask entry is
    [False] when it is an infinity. *)
Lemma masked_not_finite pv : forall mask,
  Exists (fun x => Num.isfinite x = false) pv ->
  length pv = length mask ->
  In NaN (zip_with Num.mask pv mask) \/
  In NaN (zip_with Num.mask pv (map negb mask)).
Proof.
  induction pv as [| x pv IH]; intros [| b mask] Hex E; simpl in E;
    try lia; inversion Hex as [? ? Hx | ? ? Hrest]; subst.
  - destruct x; try discriminate; destruct b; simpl; auto.
  - destruct (IH mask Hrest ltac:(lia)) as [H1 | H1]; simpl; auto.
Qed.

Lemma energy_not_finite pv mask :
  length pv = length mask ->
  Exists (fun x => Num.isfinite x = false) pv ->
  State.energy pv mask = Ok NaN.
Proof.
  intros E Hex. rewrite (energy_same_length _ _ E).
  destruct (masked_not_finite _ _ Hex E) as [H1 | H1].
  - rewrite (squares_NaN _ H1). reflexivity.
  - rewrite (sum_NaN (map Num.abs _)); [rewrite add_NaN_r; reflexivity |].
    apply (in_map Num.abs) in H1. exact H1.
Qed.


End EnergyFinite.



(** X6.  A trajectory that has diverged is rejected: when the final
    momentum has an entry that is not finite, or the final log-weight is
    a NaN, the acceptance probability is a NaN and the Metropolis test
    fails whatever value is drawn. *)
Theorem accepts_rejects_divergence `{Backend} {T : Type}
    (state state_0 : State.t) (prev_res result : ProbRun T)
    (w : world) a w' :
  length (contents (w_heap w) (State.p state)) =
    length (State.is_cont state) ->
  Exists (fun x => Num.isfinite x = false)
         (contents (w_heap w) (State.p state)) \/
  log_weight result = NaN ->
  accepts state state_0 prev_res result w = Ok (a, w') ->
  a = false.
Proof.
  intros E Hdiv (K_0 & K & _ & HK & Ha)%accepts_Ok. cbv zeta in Ha.
  assert (Hnan : Num.sub (Num.sub (Num.add (Num.neg (log_weight prev_res)) K_0)
                                  (Num.neg (log_weight result))) K = NaN).
  { destruct Hdiv as [Hex | Hlw].
    - apply kinetic_energy_Ok in HK as [HK _].
      rewrite (EnergyFinite.energy_not_finite _ _ E Hex) in HK.
      injection HK as <-. unfold Num.sub at 1. simpl.
      apply NumFacts.add_NaN_r.
    - rewrite Hlw. simpl. unfold Num.sub at 2.
      simpl. rewrite NumFacts.add_NaN_r. reflexivity. }
  rewrite Hnan in Ha. simpl in Ha.
  destruct (Num.ne_inf _); destruct Ha as [-> _]; [| reflexivity].
  destruct (fst (rand (w_gen w))); reflexivity.
Qed.

Lemma accepts_rejects_divergence_witness :
  let state := State.mk (TRef 0 1) (TRef 1 1) [true] in
  let state_0 := State.mk (TRef 0 1) (TRef 2 1) [true] in
  let r := fst (Demo.gaussian_1d [Fin 0] []) in
  let w := Demo.world_of [Fin 0] [[Fin 0]; [PInf]; [Fin 1]] in
  exists a w',
    accepts state state_0 r r w = Ok (a, w') /\ a = false.
Proof.
  intros state state_0 r w.
  assert (Hrun : exists a w', accepts state state_0 r r w = Ok (a, w'))
    by (do 2 eexists; vm_compute; reflexivity).
  destruct Hrun as (a & w' & Hrun). exists a, w'. split; [exact Hrun |].
  apply (accepts_rejects_divergence state state_0 r r w a w' eq_refl);
    [| exact Hrun].
  left. constructor. reflexivity.
Defined.

(** ** The reference state across a leapfrog step *)

Section Reference.

Context `{Backend} {T : Type}.

Variable n : nat.
Variable run_prog : oracle T.
Hypothesis Hfixed : fixed_dimension n run_prog.

Lemma kept_refl state_0 : kept n state_0 state_0.
Proof. unfold kept. auto. Qed.

Lemma view_view t : view (view t n) n = view t n.
Proof. unfold view. simpl. f_equal. lia. Qed.

Lemma kept_trans s0 s1 s2 : kept n s0 s1 -> kept n s1 s2 -> kept n s0 s2.
Proof.
  intros (Q1 & P1 & M1) (Q2 & P2 & M2). unfold kept.
  split; [congruence |]. split.
  - destruct P1 as [P1 | P1], P2 as [P2 | P2]; rewrite P2, P1;
      rewrite ?view_view; auto.
  - destruct M1 as [M1 | M1], M2 as [M2 | M2]; rewrite M2, M1;
      rewrite ?take_take, ?Nat.min_id; auto.
Qed.

Lemma probe_shaped i eps (state : State.t) (w : world) pi qv nr g1 :
  probe run_prog i eps state w = Some (pi, qv, nr, g1) -> len nr = n.
Proof.
  unfold probe. intros Hp.
  destruct (contents (w_heap w) (State.q state) !! i) as [qi |];
    [| discriminate].
  destruct (contents (w_heap w) (State.p state) !! i) as [pi0 |];
    [| discriminate].
  pose proof (Hfixed (shifted (contents (w_heap w) (State.q state)) i eps
                              qi pi0) (w_gen w)) as (Hl & _).
  destruct (run_prog _ (w_gen w)) as [r g].
  injection Hp as _ _ <- _. exact Hl.
Qed.

Lemma coord_integrator_kept i eps (state state_0 : State.t)
    (result : ProbRun T) (w : world) st st0 r w' :
  len result = n ->
  coord_integrator run_prog i eps state state_0 result w =
    Ok ((st, st0, r), w') ->
  len r = n /\ kept n state_0 st0.
Proof.
  intros Lr Hrun.
  apply coord_integrator_cases in Hrun as (pi & qv & nr & g1 & Hp & Hrun).
  pose proof (probe_shaped _ _ _ _ _ _ _ _ Hp) as Ln.
  destruct (reflected result nr pi).
  - destruct Hrun as [[= <- <- <-] _]. split; [exact Lr | apply kept_refl].
  - destruct Hrun as (s1 & s2 & [= <- <- <-] & Hres & _).
    rewrite Lr, Ln, Nat.ltb_irrefl, truncate_eq in Hres.
    injection Hres as _ <- _. split; [exact Ln |].
    unfold kept. simpl. auto.
Qed.

Lemma sweep_kept eps : forall js (state state_0 : State.t)
    (result : ProbRun T) (w : world) st st0 r w',
  len result = n ->
  sweep run_prog eps js state state_0 result w = Ok ((st, st0, r), w') ->
  kept n state_0 st0.
Proof.
  induction js as [| j js IH]; intros state state_0 result w st st0 r w' Lr Hs.
  - simpl in Hs. apply ret_Ok in Hs as [[= <- <- <-] _]. apply kept_refl.
  - simpl in Hs.
    apply bind_Ok in Hs as (m & w1 & [-> ->]%tensor_len_Ok & Hs).
    destruct (Nat.leb _ j).
    + eapply IH; eassumption.
    + apply bind_Ok in Hs as ([[s1 s2] r1] & w2 & Hci & Hs).
      apply coord_integrator_kept in Hci as [Lr1 K1]; [| exact Lr].
      eapply kept_trans; [exact K1 |]. eapply IH; eassumption.
Qed.

Lemma integrator_step_kept eps (state state_0 : State.t) (w : world)
    st st0 r w' :
  integrator_step run_prog eps state state_0 w = Ok ((st, st0, r), w') ->
  kept n state_0 st0.
Proof.
  intros Hstep. unfold integrator_step in Hstep.
  apply bind_Ok in Hstep as (qv & w1 & _ & Hstep).
  apply bind_Ok in Hstep as (r1 & w2 & _ & Hstep).
  apply bind_Ok in Hstep as (s1 & w3 & _ & Hstep).
  apply bind_Ok in Hstep as (s2 & w4 & _ & Hstep).
  apply bind_Ok in Hstep as (qv2 & w5 & _ & Hstep).
  apply bind_Ok in Hstep as (r2 & w6 & [-> _]%call_Ok & Hstep).
  apply bind_Ok in Hstep as (perm & w7 & _ & Hstep).
  apply bind_Ok in Hstep as (js & w8 & _ & Hstep).
  apply bind_Ok in Hstep as ([[s3 s4] r3] & w9 & Hsweep & Hstep).
  apply bind_Ok in Hstep as (s5 & w10 & _ & Hstep).
  apply bind_Ok in Hstep as (qv5 & w11 & _ & Hstep).
  apply bind_Ok in Hstep as (r5 & w12 & _ & Hstep).
  apply bind_Ok in Hstep as (s6 & w13 & _ & Hstep).
  apply ret_Ok in Hstep as [[= _ -> _] _].
  eapply sweep_kept; [| exact Hsweep]. apply Hfixed.
Qed.

End Reference.

(** X7.  For a program of fixed dimension, a leapfrog step leaves the
    reference state as it found it: the same position tensor, a momentum
    with the same entries, the same mask.  This holds also when the two
    states are built from one momentum tensor, as [np_dhmc] builds them:
    the first half kick gives the working state a tensor of its own
    before the coordinate integrator writes into it. *)
Theorem integrator_step_reference `{Backend} {T : Type}
    (n : nat) (run_prog : oracle T) (eps : num) (state state_0 : State.t)
    (w : world) st st0 r w' :
  fixed_dimension n run_prog ->
  valid (w_heap w) (State.p state_0) ->
  length (contents (w_heap w) (State.p state_0)) = n ->
  length (State.is_cont state_0) = n ->
  integrator_step run_prog eps state state_0 w = Ok ((st, st0, r), w') ->
  State.q st0 = State.q state_0 /\
  contents (w_heap w') (State.p st0) = contents (w_heap w) (State.p state_0) /\
  State.is_cont st0 = State.is_cont state_0.
Proof.
  intros Hfixed Hv Lp Lm Hstep.
  pose proof (integrator_step_kept n run_prog Hfixed _ _ _ _ _ _ _ _ Hstep)
    as (Kq & Kp & Km).
  apply (integrator_step_grows (length (w_heap w))) in Hstep as [G _];
    [| lia].
  split; [exact Kq |]. split.
  - destruct Kp as [-> | ->].
    + apply (grows_contents _ _ _ _ G). exact Hv.
    + rewrite (grows_contents _ _ _ _ G) by exact Hv.
      rewrite HeapFacts.contents_view. apply take_ge. lia.
  - destruct Km as [-> | ->]; [reflexivity |]. apply take_ge. lia.
Qed.

Lemma integrator_step_reference_witness :
  let s := State.mk (TRef 0 1) (TRef 1 1) [false] in
  let w := Demo.world_of [] [[Fin (-1 # 4)]; [Fin 2]] in
  exists st st0 r w',
    integrator_step (Demo.step_1d 1) (Fin 1) s s w = Ok ((st, st0, r), w') /\
    State.q st0 = TRef 0 1 /\
    contents (w_heap w') (State.p st0) = [Fin 2] /\
    State.is_cont st0 = [false].
Proof.
  intros s w.
  assert (Hrun : exists st st0 r w',
             integrator_step (Demo.step_1d 1) (Fin 1) s s w =
             Ok ((st, st0, r), w'))
    by (do 4 eexists; vm_compute; reflexivity).
  destruct Hrun as (st & st0 & r & w' & Hrun).
  exists st, st0, r, w'. split; [exact Hrun |].
  apply (integrator_step_reference 1 (Demo.step_1d 1) (Fin 1) s s w
           st st0 r w'); try reflexivity; try exact Hrun.
  - intros qv g. unfold Demo.step_1d. repeat split.
  - unfold valid. simpl. lia.
Defined.

(** ** Which exceptions the coordinate integrator raises *)

Section Exceptions.

Context `{Backend} {T : Type}.

Lemma bcast2_Raise {A B C : Type} (f : A -> B -> C) a b e :
  Tensor.bcast2 f a b = Raise e -> e = ShapeError.
Proof.
  unfold Tensor.bcast2. destruct (Nat.eqb _ _); [discriminate |].
  destruct a as [| x [| y a]], b as [| z [| u b]]; try discriminate;
    intros [= <-]; reflexivity.
Qed.

Lemma padding_Raise gauss laplace mask e :
  padding gauss laplace mask = Raise e -> e = ShapeError.
Proof.
  unfold padding, Tensor.mul_mask, Tensor.add.
  destruct (Tensor.bcast2 Num.mask gauss mask) eqn:E1.
  - destruct (Tensor.bcast2 Num.mask laplace (map negb mask)) eqn:E2.
    + apply bcast2_Raise.
    + intros [= <-]. eapply bcast2_Raise. exact E2.
  - intros [= <-]. eapply bcast2_Raise. exact E1.
Qed.

Lemma extend_Raise (state state_0 : State.t) (r : ProbRun T) N N2
    (w : world) e :
  extend state state_0 r N N2 w = Raise e -> e = ShapeError.
Proof.
  unfold extend. unfold bind at 1. unfold alloc at 1.
  unfold bind at 1. unfold sample_normal at 1. cbn [w_gen w_heap w_log].
  destruct (draw_n normal1 _ _) as [g g1].
  unfold bind at 1. unfold sample_laplace at 1. cbn [w_gen w_heap w_log].
  destruct (draw_n laplace1 _ _) as [l g2].
  unfold bind at 1. unfold lift at 1.
  destruct (padding g l _) eqn:Ep.
  - unfold bind, read, alloc, ret. discriminate.
  - intros [= <-]. eapply padding_Raise. exact Ep.
Qed.

Lemma assert_Raise c (w : world) e :
  assert c w = Raise e -> e = AssertionError.
Proof. destruct c; [discriminate |]. intros [= <-]. reflexivity. Qed.

Lemma check_lengths_Raise (st st0 : State.t) (w : world) e :
  check_lengths st st0 w = Raise e -> e = AssertionError.
Proof.
  unfold check_lengths, bind, tensor_len. intros Hc.
  repeat match type of Hc with
         | match assert ?c ?w0 with _ => _ end = _ =>
             let E := fresh "E" in
             destruct (assert c w0) as [[[] ?] |] eqn:E;
             [apply assert_Ok in E as [_ ->]
             | injection Hc as <-; apply assert_Raise in E; exact E]
         end.
  apply assert_Raise in Hc. exact Hc.
Qed.

(** The call once it has decided to refract. *)
Lemma coord_integrator_refract (run_prog : oracle T) i eps
    (state state_0 : State.t) (result : ProbRun T) (w : world)
    pi qv nr g1 :
  probe run_prog i eps state w = Some (pi, qv, nr, g1) ->
  reflected result nr pi = false ->
  coord_integrator run_prog i eps state state_0 result w =
    (let* '(st, st0) :=
       (if Nat.ltb (len result) (len nr)
        then extend state state_0 nr (len result) (len nr)
        else truncate state state_0 nr (len nr)) in
     let* _ := check_lengths st st0 in
     ret (st, st0, nr))
      (World _ g1 (write (w_heap w) (State.p state) i (refracted result nr pi))
             (w_log w ++ [EvRunProg qv])).
Proof.
  unfold probe, reflected, refracted, delta_U. intros Hp Hr.
  destruct (contents (w_heap w) (State.q state) !! i) as [qi |] eqn:Hqi;
    [| discriminate].
  destruct (contents (w_heap w) (State.p state) !! i) as [pi0 |] eqn:Hpi;
    [| discriminate].
  destruct (run_prog _ (w_gen w)) as [r g] eqn:Er.
  injection Hp as -> <- <- <-.
  assert (Hlt : i < length (contents (w_heap w) (State.p state))).
  { apply lookup_lt_Some in Hpi. exact Hpi. }
  unfold coord_integrator.
  rewrite (bind_Ok_intro _ _ w _ w eq_refl).
  unfold Tensor.index at 1. rewrite Hqi.
  rewrite (bind_Ok_intro _ _ w qi w eq_refl).
  rewrite (bind_Ok_intro _ _ w _ w (getitem_intro _ _ _ _ Hpi)).
  unfold shifted in Er.
  unfold bind at 1. unfold call. rewrite Er.
  unfold bind at 1. unfold reflects. unfold reflect_test in Hr.
  apply orb_false_elim in Hr as [Hfin Hle]. rewrite Hfin.
  unfold bind at 1.
  rewrite getitem_intro with (x := pi) by exact Hpi.
  unfold ret at 1. rewrite Hle. unfold bind at 1.
  rewrite getitem_intro with (x := pi) by exact Hpi.
  unfold bind at 1. unfold setitem. simpl.
  apply Nat.ltb_lt in Hlt. rewrite Hlt.
  unfold log_event. simpl. reflexivity.
Qed.

Lemma probe_in_range (run_prog : oracle T) i eps (state : State.t)
    (w : world) :
  i < length (contents (w_heap w) (State.q state)) ->
  i < length (contents (w_heap w) (State.p state)) ->
  exists pi qv nr g1, probe run_prog i eps state w = Some (pi, qv, nr, g1).
Proof.
  intros Hq Hp. unfold probe.
  destruct (lookup_lt_is_Some_2 _ _ Hq) as [qi ->].
  destruct (lookup_lt_is_Some_2 _ _ Hp) as [pi ->].
  destruct (run_prog _ (w_gen w)) as [r g]. do 4 eexists. reflexivity.
Qed.

(** With [i] inside both tensors the call raises no [IndexError]; when
    it returns, the working momentum is as long as the working
    position if it was. *)
Lemma coord_integrator_in_range (run_prog : oracle T) i eps
    (state state_0 : State.t) (result : ProbRun T) (w : world) :
  i < length (contents (w_heap w) (State.q state)) ->
  i < length (contents (w_heap w) (State.p state)) ->
  match coord_integrator run_prog i eps state state_0 result w with
  | Raise e => e = ShapeError \/ e = AssertionError
  | Ok ((st, _, _), w') =>
      length (contents (w_heap w) (State.p state)) =
        length (contents (w_heap w) (State.q state)) ->
      length (contents (w_heap w') (State.p st)) =
        length (contents (w_heap w') (State.q st))
  end.
Proof.
  intros Hq Hp.
  destruct (probe_in_range run_prog i eps state w Hq Hp)
    as (pi & qv & nr & g1 & Hprobe).
  destruct (reflected result nr pi) eqn:Hr.
  - rewrite (coord_integrator_reflect _ _ _ _ _ _ _ _ _ _ _ Hprobe Hr).
    simpl. intros E. rewrite !HeapFacts.length_contents_write. exact E.
  - rewrite (coord_integrator_refract _ _ _ _ _ _ _ _ _ _ _ Hprobe Hr).
    unfold bind at 1.
    match goal with
    | |- context [match ?m ?w0 with Ok _ => _ | Raise _ => _ end] =>
        destruct (m w0) as [[[s1 s2] w1] | e] eqn:Hres
    end.
    + unfold bind.
      destruct (check_lengths s1 s2 w1) as [[[] w2] | e] eqn:Hc.
      * simpl. apply check_lengths_Ok in Hc as [-> (_ & E & _)].
        intros _. exact E.
      * right. eapply check_lengths_Raise. exact Hc.
    + left. destruct (Nat.ltb _ _).
      * eapply extend_Raise. exact Hres.
      * rewrite truncate_eq in Hres. discriminate.
Qed.

End Exceptions.

(** X8.  [coord_integrator] raises [IndexError] exactly when the index
    is outside the working position or the working momentum; nothing it
    does afterwards (the writes to [state.p[i]], the resizing, the
    assertions) can raise one. *)
Theorem coord_integrator_index_error `{Backend} {T : Type}
    (run_prog : oracle T) (i : nat) (eps : num) (state state_0 : State.t)
    (result : ProbRun T) (w : world) :
  coord_integrator run_prog i eps state state_0 result w = Raise IndexError <->
  (length (contents (w_heap w) (State.q state)) <= i \/
   length (contents (w_heap w) (State.p state)) <= i).
Proof.
  split.
  - intros Hraise.
    destruct (Nat.le_gt_cases (length (contents (w_heap w) (State.q state))) i)
      as [Hq | Hq]; [left; exact Hq |].
    destruct (Nat.le_gt_cases (length (contents (w_heap w) (State.p state))) i)
      as [Hp | Hp]; [right; exact Hp |].
    pose proof (coord_integrator_in_range run_prog i eps state state_0
                  result w Hq Hp) as Hin.
    rewrite Hraise in Hin. destruct Hin; discriminate.
  - intros Hout. unfold coord_integrator.
    rewrite (bind_Ok_intro _ _ w _ w eq_refl).
    unfold bind at 1. unfold lift at 1. unfold Tensor.index at 1.
    destruct (contents (w_heap w) (State.q state) !! i) as [qi |] eqn:Hqi;
      [| reflexivity].
    destruct Hout as [Hq | Hp].
    + apply lookup_lt_Some in Hqi. lia.
    + unfold bind at 1. unfold getitem, bind, read, lift, Tensor.index.
      rewrite (lookup_ge_None_2 _ _ Hp). reflexivity.
Qed.

Lemma coord_integrator_index_error_witness :
  let s := State.mk (TRef 0 2) (TRef 1 1) [false; false] in
  let w := Demo.world_of [] [[Fin 0; Fin 0]; [Fin 1]] in
  coord_integrator (Demo.step_1d 1) 1 (Fin 1) s s
                   (fst (Demo.step_1d 1 [] [])) w = Raise IndexError.
Proof.
  intros s w.
  apply (coord_integrator_index_error (Demo.step_1d 1) 1 (Fin 1) s s).
  right. simpl. lia.
Defined.

(** X9.  The sweep over the discontinuous indices raises no
    [IndexError] when the working momentum is as long as the working
    position: the guard of line 170 keeps every index inside the
    position, and the assertions of the coordinate integrator keep the
    two tensors equally long after each change of dimension. *)
Theorem sweep_no_index_error `{Backend} {T : Type}
    (run_prog : oracle T) (eps : num) (js : list nat)
    (state state_0 : State.t) (result : ProbRun T) (w : world) :
  length (contents (w_heap w) (State.p state)) =
    length (contents (w_heap w) (State.q state)) ->
  sweep run_prog eps js state state_0 result w <> Raise IndexError.
Proof.
  revert state state_0 result w.
  induction js as [| j js IH]; intros state state_0 result w E.
  - discriminate.
  - simpl. unfold bind at 1. unfold tensor_len.
    destruct (Nat.leb_spec (length (contents (w_heap w) (State.q state))) j)
      as [Hge | Hlt].
    + apply IH. exact E.
    + pose proof (coord_integrator_in_range run_prog j eps state state_0
                    result w Hlt ltac:(lia)) as Hin.
      unfold bind.
      destruct (coord_integrator run_prog j eps state state_0 result w)
        as [[[[s1 s2] r1] w1] | e].
      * apply IH. apply Hin. exact E.
      * destruct Hin as [-> | ->]; discriminate.
Qed.

Lemma sweep_no_index_error_witness :
  let s := State.mk (TRef 0 1) (TRef 1 1) [false] in
  let w := Demo.world_of [] [[Fin (-1 # 4)]; [Fin 2]] in
  sweep Demo.branching (Fin 1) [0; 1; 5] s s
        (fst (Demo.branching [Fin (-1 # 4)] [])) w <> Raise IndexError.
Proof.
  intros s w.
  apply (sweep_no_index_error Demo.branching (Fin 1) [0; 1; 5] s s).
  reflexivity.
Defined.

(** ** The kinetic energy across a reflection *)

Module ReflectEnergy.

Import EnergyFacts.

Lemma Qmult_opp_l x y : ((- x) * y = - (x * y))%Q.
Proof.
  destruct x as [n d], y as [m e]. unfold Qmult, Qopp. simpl.
  f_equal. lia.
Qed.

Lemma Qmult_opp_opp x : ((- x) * (- x) = x * x)%Q.
Proof.
  destruct x as [n d]. unfold Qmult, Qopp. simpl. f_equal. lia.
Qed.

Lemma Qabs_opp_eq x : Qabs (- x) = Qabs x.
Proof.
  destruct x as [n d]. unfold Qabs, Qopp. simpl.
  rewrite Z.abs_opp. reflexivity.
Qed.

Lemma mask_neg a b : Num.mask (Num.neg a) b = Num.neg (Num.mask a b).
Proof.
  destruct a as [| | | x], b; try reflexivity; unfold Num.mask; simpl;
    rewrite Qmult_opp_l, Qred_opp; reflexivity.
Qed.

Lemma square_neg c : Num.mul (Num.neg c) (Num.neg c) = Num.mul c c.
Proof.
  destruct c as [| | | y]; try reflexivity. simpl.
  rewrite Qmult_opp_opp. reflexivity.
Qed.

Lemma abs_neg c : Num.abs (Num.neg c) = Num.abs c.
Proof.
  destruct c as [| | | y]; try reflexivity.
  cbn [Num.neg Num.abs]. rewrite Qabs_opp_eq. reflexivity.
Qed.

Lemma zip_with_insert_same {A B C : Type} (f : A -> B -> C) x x' :
  (forall b, f x' b = f x b) ->
  forall l i m, l !! i = Some x ->
    zip_with f (<[i := x']> l) m = zip_with f l m.
Proof.
  intros Hf. induction l as [| y l IH]; intros [| i] [| b m] Hl;
    try discriminate; try reflexivity; simpl in *.
  - injection Hl as ->. rewrite Hf. reflexivity.
  - rewrite (IH i m Hl). reflexivity.
Qed.

Lemma squares_zip l : forall m,
  zip_with Num.mul (zip_with Num.mask l m) (zip_with Num.mask l m) =
  zip_with (fun x b => Num.mul (Num.mask x b) (Num.mask x b)) l m.
Proof.
  induction l as [| x l IH]; intros [| b m]; try reflexivity.
  simpl. rewrite IH. reflexivity.
Qed.

Lemma abs_zip l : forall m,
  map Num.abs (zip_with Num.mask l m) =
  zip_with (fun x b => Num.abs (Num.mask x b)) l m.
Proof.
  induction l as [| x l IH]; intros [| b m]; try reflexivity.
  simpl. rewrite IH. reflexivity.
Qed.

(** The energy does not see the sign of an entry. *)
Lemma energy_neg pv mask i x :
  length pv = length mask -> pv !! i = Some x ->
  State.energy (<[i := Num.neg x]> pv) mask = State.energy pv mask.
Proof.
  intros E Hx.
  rewrite (energy_same_length _ _ E).
  rewrite energy_same_length by (rewrite length_insert; exact E).
  unfold Num.dot. rewrite !squares_zip, !abs_zip.
  rewrite (zip_with_insert_same _ x (Num.neg x)); [| | exact Hx].
  - rewrite (zip_with_insert_same _ x (Num.neg x)); [reflexivity | | exact Hx].
    intros b. rewrite mask_neg. apply abs_neg.
  - intros b. rewrite mask_neg. apply square_neg.
Qed.

End ReflectEnergy.

(** X10.  A reflection leaves the kinetic energy of the working state
    as it was: the sign flip of [state.p[i]] changes neither the square
    nor the absolute value of the entry. *)
Theorem coord_integrator_reflect_energy `{Backend} {T : Type}
    (run_prog : oracle T) (i : nat) (eps : num) (state state_0 : State.t)
    (result : ProbRun T) (w : world) pi qv nr g1 :
  probe run_prog i eps state w = Some (pi, qv, nr, g1) ->
  reflected result nr pi = true ->
  length (contents (w_heap w) (State.p state)) =
    length (State.is_cont state) ->
  exists w' K,
    coord_integrator run_prog i eps state state_0 result w =
      Ok ((state, state_0, result), w') /\
    State.kinetic_energy state w = Ok (K, w) /\
    State.kinetic_energy state w' = Ok (K, w').
Proof.
  intros Hp Hr E.
  destruct (probe_valid _ _ _ _ _ _ _ _ _ Hp) as (Hpi & _ & _).
  rewrite (coord_integrator_reflect _ _ _ _ _ _ _ _ _ _ _ Hp Hr).
  destruct (State.energy (contents (w_heap w) (State.p state))
                         (State.is_cont state)) as [K | e] eqn:HK.
  - eexists _, K. split; [reflexivity |].
    unfold State.kinetic_energy, bind, read, lift. simpl.
    rewrite HeapFacts.contents_write_same.
    rewrite (ReflectEnergy.energy_neg _ _ _ _ E Hpi), HK. auto.
  - rewrite (EnergyFacts.energy_same_length _ _ E) in HK. discriminate.
Qed.

Lemma coord_integrator_reflect_energy_witness :
  let state := State.mk (TRef 0 1) (TRef 1 1) [false] in
  let state_0 := State.mk (TRef 0 1) (TRef 2 1) [false] in
  let r := fst (Demo.step_1d 3 [Fin (-1 # 4)] []) in
  let w := Demo.world_of [] [[Fin (-1 # 4)]; [Fin 2]; [Fin 2]] in
  exists w' K,
    coord_integrator (Demo.step_1d 3) 0 (Fin 1) state state_0 r w =
      Ok ((state, state_0, r), w') /\
    State.kinetic_energy state w = Ok (K, w) /\
    State.kinetic_energy state w' = Ok (K, w').
Proof.
  intros state state_0 r w.
  assert (Hp : exists pi qv nr g1,
             probe (Demo.step_1d 3) 0 (Fin 1) state w = Some (pi, qv, nr, g1) /\
             reflected r nr pi = true)
    by (do 4 eexists; split; vm_compute; reflexivity).
  destruct Hp as (pi & qv & nr & g1 & Hp & Hr).
  apply (coord_integrator_reflect_energy (Demo.step_1d 3) 0 (Fin 1)
           state state_0 r w pi qv nr g1 Hp Hr).
  reflexivity.
Defined.

(** ** The proposal *)



(** X12.  The momentum of a proposal: the two states get one momentum
    tensor, new in the heap, over the current position; when the mask has
    one entry per coordinate and the draws are finite, its entries are
    the Gaussian draws at the continuous coordinates and the Laplace
    draws at the others. *)
Theorem propose_momentum `{Backend} (eps : num) (q : tref)
    (is_cont : list bool) (w : world) dt s s0 w0 :
  let N := length (contents (w_heap w) q) in
  let gd := draw_n normal1 N (snd (rand (w_gen w))) in
  let ld := draw_n laplace1 N (snd gd) in
  length is_cont = N ->
  Forall (fun x => Num.isfinite x = true) (fst gd) ->
  Forall (fun x => Num.isfinite x = true) (fst ld) ->
  propose eps q is_cont w = Ok ((dt, s, s0), w0) ->
  State.q s = q /\ State.q s0 = q /\
  State.p s0 = State.p s /\
  ~ valid (w_heap w) (State.p s) /\
  Forall2 Num.same (contents (w_heap w0) (State.p s))
          (fresh_momentum (fst gd) (fst ld) is_cont).
Proof.
  intros N gd ld Lm Hg Hl Hp.
  apply propose_Ok in Hp as (pv & Hpv & _ & -> & -> & ->).
  fold N gd ld in Hpv. simpl.
  split; [reflexivity |]. split; [reflexivity |]. split; [reflexivity |].
  split; [unfold valid; simpl; lia |].
  rewrite HeapFacts.contents_alloc_new.
  destruct (padding_fresh (fst gd) (fst ld) is_cont) as (pad & Hpad & Hsame);
    try assumption.
  - unfold gd. rewrite draw_n_length. symmetry. exact Lm.
  - unfold ld. rewrite draw_n_length. symmetry. exact Lm.
  - rewrite Hpad in Hpv. injection Hpv as <-. exact Hsame.
Qed.

Lemma propose_momentum_witness :
  let w := Demo.world_of [Fin (1 # 2); Fin 1; Fin 2; Fin 3; Fin 4]
                         [[Fin 0; Fin 0]] in
  exists dt s s0 w0,
    propose (Fin 1) (TRef 0 2) [true; false] w = Ok ((dt, s, s0), w0) /\
    State.q s = TRef 0 2 /\ State.q s0 = TRef 0 2 /\
    State.p s0 = State.p s /\
    ~ valid (w_heap w) (State.p s) /\
    Forall2 Num.same (contents (w_heap w0) (State.p s)) [Fin 1; Fin 4].
Proof.
  intros w.
  assert (Hrun : exists dt s s0 w0,
             propose (Fin 1) (TRef 0 2) [true; false] w = Ok ((dt, s, s0), w0))
    by (do 4 eexists; vm_compute; reflexivity).
  destruct Hrun as (dt & s & s0 & w0 & Hrun).
  exists dt, s, s0, w0. split; [exact Hrun |].
  apply (propose_momentum (Fin 1) (TRef 0 2) [true; false] w dt s s0 w0
           eq_refl); [| | exact Hrun]; repeat constructor.
Defined.

(** ** A trajectory without leapfrog steps *)

Section Still.

Context `{Backend} {T : Type}.

Lemma np_dhmc_iter_still (run_prog : oracle T) leapfrog_steps eps
    (d : Driver.t T) (w : world) d' w' :
  (leapfrog_steps <= 0)%Z ->
  np_dhmc_iter run_prog leapfrog_steps eps d w = Ok (d', w') ->
  Driver.result d' = Driver.result d /\
  Driver.q d' = Driver.q d /\
  Driver.is_cont d' = Driver.is_cont d /\
  Driver.final_samples d' =
    Driver.final_samples d ++ [value (Driver.result d)].
Proof.
  intros Hle Hi.
  apply np_dhmc_iter_inv in Hi
    as (dt & s & s0 & w0 & state & state_0 & result & w1 & a &
        Hprop & Hleap & _ & ->).
  replace (Z.to_nat leapfrog_steps) with 0 in Hleap by lia.
  simpl in Hleap. apply ret_Ok in Hleap as [[= <- <- <-] <-].
  apply propose_Ok in Hprop as (pv & _ & _ & -> & _).
  destruct a; simpl; auto.
Qed.

Lemma np_dhmc_loop_still (run_prog : oracle T) leapfrog_steps eps :
  (leapfrog_steps <= 0)%Z ->
  forall k (d : Driver.t T) (w : world) d' w',
  np_dhmc_loop run_prog k leapfrog_steps eps d w = Ok (d', w') ->
  Driver.final_samples d' =
    Driver.final_samples d ++ repeat (value (Driver.result d)) k.
Proof.
  intros Hle. induction k as [| k IH]; intros d w d' w' Hl.
  - simpl in Hl. apply ret_Ok in Hl as [-> ->].
    simpl. rewrite app_nil_r. reflexivity.
  - simpl in Hl. apply bind_Ok in Hl as (d1 & w1 & Hi & Hl).
    apply np_dhmc_iter_still in Hi as (Er & _ & _ & Ef); [| exact Hle].
    apply IH in Hl. rewrite Hl, Ef, Er, <- app_assoc. reflexivity.
Qed.

End Still.

(** X13.  With no leapfrog step ([leapfrog_steps <= 0]) the chain does
    not move: whether the iterations accept or reject, every returned
    sample is the value of the first run of the program. *)
Theorem np_dhmc_no_leapfrog `{Backend} {T : Type}
    (run_prog : oracle T) (count leapfrog_steps : Z) (eps : num)
    (burnin : option Z) (w : world) out w' :
  (leapfrog_steps <= 0)%Z ->
  np_dhmc run_prog count leapfrog_steps eps burnin w = Ok (out, w') ->
  Forall (fun v => v = value (fst (run_prog [] (w_gen w)))) out.
Proof.
  intros Hle Hrun. unfold np_dhmc in Hrun.
  apply bind_Ok in Hrun as (d0 & w0 & Hinit & Hrun).
  apply bind_Ok in Hrun as (d1 & w1 & Hloop & Hrun).
  apply bind_Ok in Hrun as ([] & w2 & _ & Hrun).
  apply ret_Ok in Hrun as [-> _].
  rewrite np_dhmc_init_eq in Hinit. injection Hinit as <- <-.
  apply np_dhmc_loop_still in Hloop; [| exact Hle]. simpl in Hloop.
  unfold Tensor.py_slice_from. rewrite Hloop.
  apply Forall_drop, Forall_forall. intros v Hv.
  apply list_elem_of_In, repeat_spec in Hv. exact Hv.
Qed.

Lemma np_dhmc_no_leapfrog_witness :
  exists out w',
    np_dhmc Demo.gaussian_1d 3 0 (Fin (1 # 5)) None
            (Demo.start [Fin (1 # 2); Fin 1; Fin 0; Fin (1 # 3)]) =
      Ok (out, w') /\
    Forall (fun v => v = 0%Q) out.
Proof.
  assert (Hrun : exists out w',
             np_dhmc Demo.gaussian_1d 3 0 (Fin (1 # 5)) None
                     (Demo.start [Fin (1 # 2); Fin 1; Fin 0; Fin (1 # 3)]) =
             Ok (out, w'))
    by (do 2 eexists; vm_compute; reflexivity).
  destruct Hrun as (out & w' & Hrun).
  exists out, w'. split; [exact Hrun |].
  apply (np_dhmc_no_leapfrog Demo.gaussian_1d 3 0 (Fin (1 # 5)) None
           _ out w' ltac:(lia) Hrun).
Defined.

(** ** Proposals that do not raise the energy *)




(** ** A leapfrog step in fixed dimension *)

(** X15.  For a program whose runs all have [n] coordinates, and a
    [torch.randperm] that returns indices in range, a leapfrog step from
    two states of dimension [n] raises no exception (no index or shape
    error, no failed assertion) and ends in two states of dimension
    [n]. *)
Theorem integrator_step_fixed_dimension `{Backend} {T : Type}
    (n : nat) (run_prog : oracle T) (eps : num) (state state_0 : State.t)
    (w : world) :
  fixed_dimension n run_prog ->
  randperm_in_range ->
  shaped n (w_heap w) state state_0 ->
  exists st st0 r w',
    integrator_step run_prog eps state state_0 w = Ok ((st, st0, r), w') /\
    shaped n (w_heap w') st st0.
Proof.
  intros Hfixed Hperm Hs.
  exact (integrator_step_total n run_prog Hfixed Hperm eps state state_0 w Hs).
Qed.

Lemma step_1d_fixed (h : Q) : fixed_dimension 1 (Demo.step_1d h).
Proof. intros qv g. unfold Demo.step_1d. repeat split. Qed.

Lemma integrator_step_fixed_dimension_witness :
  let s := State.mk (TRef 0 1) (TRef 1 1) [false] in
  let w := Demo.world_of [] [[Fin (-1 # 4)]; [Fin 2]] in
  exists st st0 r w',
    integrator_step (Demo.step_1d 1) (Fin 1) s s w = Ok ((st, st0, r), w') /\
    shaped 1 (w_heap w') st st0.
Proof.
  intros s w.
  apply (integrator_step_fixed_dimension 1 (Demo.step_1d 1) (Fin 1) s s w
           (step_1d_fixed 1) tape_randperm_in_range).
  unfold shaped, valid. simpl. repeat split; lia.
Defined.

(** ** A leapfrog step on continuous coordinates *)

Section Continuous.

Context `{Backend} {T : Type}.












End Continuous.



(** ** The kinetic energy across an extension *)

Module ExtendEnergy.

Import NumFacts EnergyFacts.






End ExtendEnergy.



